(** * Shor's algorithm for N = 15: the classical post-processing of [shor_qpe]

    A shallow embedding of the notebook function [shor_qpe] and of the
    Python library routines it calls ([int(s, 2)], [int / int],
    [fractions.Fraction], [Fraction.limit_denominator], [math.gcd]),
    followed by the properties of the factor-recovery loop.

    The quantum part (circuit simulation) is an oracle: a function from the
    circuit handed to the simulator and the number of the invocation to the
    measured bit string. *)

From Stdlib Require Import ZArith List Bool String Ascii Lia QArith Qabs Znumtheory.
Import ListNotations.
Local Open Scope Z_scope.

(** ** Python results: a value, a raised exception, or a loop still running *)

Inductive exn : Type :=
| ValueError
| ZeroDivisionError
| TypeError
| OverflowError.

Inductive result (A : Type) : Type :=
| Ok (x : A)
| Raise (e : exn)
| Unfinished.

Arguments Ok {A} x.
Arguments Raise {A} e.
Arguments Unfinished {A}.

Definition bind {A B : Type} (c : result A) (f : A -> result B) : result B :=
  match c with
  | Ok x => f x
  | Raise e => Raise e
  | Unfinished => Unfinished
  end.

Notation "x <- c ;; k" := (bind c (fun x => k))
  (at level 61, c at next level, right associativity).

(** [n // d] and [n % d] on Python integers: floor division, the remainder
    has the sign of the divisor, a zero divisor raises. *)
Definition floordiv (n d : Z) : result Z :=
  if d =? 0 then Raise ZeroDivisionError else Ok (n / d).

Definition pymod (n d : Z) : result Z :=
  if d =? 0 then Raise ZeroDivisionError else Ok (n mod d).

(** The largest magnitude an integer may have to be converted to a float
    is just below [2**1024 - 2**970]. *)
Definition float_overflow (n : Z) : bool :=
  2 ^ 1024 - 2 ^ 970 <=? Z.abs n.

(** [b ** e] as used in [gcd(b ** e - 1, N)].  With a negative exponent
    both operands are converted to floats ([OverflowError] when one is too
    large), [0 ** e] raises [ZeroDivisionError], and otherwise the power is
    a float, on which [gcd] raises [TypeError]. *)
Definition int_pow (b e : Z) : result Z :=
  if e <? 0 then
    if float_overflow b || float_overflow e then Raise OverflowError
    else if b =? 0 then Raise ZeroDivisionError
    else Raise TypeError
  else Ok (b ^ e).

(** ** Bit strings returned by the simulator

    A key of the counts dictionary: one character ['0'] or ['1'] per
    classical bit, most significant first. *)

Definition sample : Type := list bool.

Definition str (s : sample) : string :=
  string_of_list_ascii (map (fun b : bool => if b then "1"%char else "0"%char) s).

(** [int(init_phase, 2)]; the empty string is not a literal. *)
Definition int2 (s : sample) : result Z :=
  match s with
  | [] => Raise ValueError
  | _ => Ok (fold_left (fun acc (b : bool) => 2 * acc + Z.b2z b) s 0)
  end.

(** ** Floats of the form [v / 2 ** len]

    The double [significand / 2 ^ scale]. *)

Record float : Type := mkfloat { significand : Z; scale : Z }.

Definition bit_length (v : Z) : Z :=
  if v =? 0 then 0 else Z.log2 (Z.abs v) + 1.

(** [v / 2 ^ shift] rounded to the nearest integer, ties to the even one. *)
Definition round_half_even (v shift : Z) : Z :=
  let q := Z.shiftr v shift in
  let rem := v - Z.shiftl q shift in
  let half := Z.shiftl 1 (shift - 1) in
  if rem <? half then q
  else if half <? rem then q + 1
  else if Z.even q then q else q + 1.

(** [v / (2 ** len)] for [0 <= v < 2 ** len]: true division of integers
    returns the double nearest to the quotient, ties to even.  The divisor
    being a power of two, that double is [v] rounded to 53 significant bits
    (or, below [2 ** -1022], to a multiple of [2 ** -1074]) over [2 ** len]. *)
Definition truediv_pow2 (v len : Z) : float :=
  let shift := Z.max (Z.max (bit_length v - 53) (len - 1074)) 0 in
  if shift =? 0 then mkfloat v len
  else mkfloat (Z.shiftl (round_half_even v shift) shift) len.

(** ** fractions.Fraction *)

Module Fractions.

Record Fraction : Type := mkFraction { numerator : Z; denominator : Z }.

(** Lowest terms, the sign carried by the numerator. *)
Definition normalize (n d : Z) : Fraction :=
  let g := Z.gcd n d in
  let g := if d <? 0 then - g else g in
  mkFraction (n / g) (d / g).

(** [Fraction(numerator, denominator)] *)
Definition new (n d : Z) : result Fraction :=
  if d =? 0 then Raise ZeroDivisionError else Ok (normalize n d).

(** [Fraction(x)] for a float [x]: the exact ratio [x.as_integer_ratio()]. *)
Definition of_float (x : float) : Fraction :=
  normalize (significand x) (2 ^ scale x).

Definition sub (a b : Fraction) : Fraction :=
  normalize (numerator a * denominator b - numerator b * denominator a)
            (denominator a * denominator b).

Definition abs (a : Fraction) : Fraction :=
  mkFraction (Z.abs (numerator a)) (denominator a).

Definition le (a b : Fraction) : bool :=
  numerator a * denominator b <=? numerator b * denominator a.

(** The variables of the loop of [limit_denominator]. *)
Record cf : Type := mkcf { p0 : Z; q0 : Z; p1 : Z; q1 : Z; n : Z; d : Z }.

(** [while True: a = n//d; q2 = q0+a*q1; if q2 > max_denominator: break; ...] *)
Fixpoint cf_loop (fuel : nat) (max_denominator : Z) (s : cf) : result cf :=
  match fuel with
  | O => Unfinished
  | S fuel' =>
      match floordiv (n s) (d s) with
      | Ok a =>
          let q2 := q0 s + a * q1 s in
          if q2 >? max_denominator then Ok s
          else cf_loop fuel' max_denominator
                 (mkcf (p1 s) (q1 s) (p0 s + a * p1 s) q2 (d s) (n s - a * d s))
      | Raise e => Raise e
      | Unfinished => Unfinished
      end
  end.

(** Iterations granted to the loop: the denominators [q1] grow by at least
    one from the third iteration on and stay below [max_denominator]. *)
Definition cf_fuel (max_denominator : Z) : nat :=
  S (S (Z.to_nat max_denominator)).

Definition limit_denominator (self : Fraction) (max_denominator : Z) : result Fraction :=
  if max_denominator <? 1 then Raise ValueError
  else if denominator self <=? max_denominator then Ok self
  else
    s <- cf_loop (cf_fuel max_denominator) max_denominator
           (mkcf 0 1 1 0 (numerator self) (denominator self)) ;;
    k <- floordiv (max_denominator - q0 s) (q1 s) ;;
    bound1 <- new (p0 s + k * p1 s) (q0 s + k * q1 s) ;;
    bound2 <- new (p1 s) (q1 s) ;;
    if le (abs (sub bound2 self)) (abs (sub bound1 self))
    then Ok bound2
    else Ok bound1.

End Fractions.

(** ** The circuit handed to the simulator *)

Inductive instruction : Type :=
| h (qubit : Z)
| x (qubit : Z)
| append_cU_multi (i : Z) (qargs : list Z)
| barrier
| qft_dagger (n : Z)
| measure (qubits clbits : list Z).

Record QuantumCircuit : Type :=
  mkcircuit { num_qubits : Z; num_clbits : Z; data : list instruction }.

Definition range (lo hi : Z) : list Z :=
  map (fun i => lo + Z.of_nat i) (seq 0 (Z.to_nat (hi - lo))).

(** Step 2a of [shor_qpe]: the phase-estimation circuit on [k] qubits with
    [m] counting qubits; the auxiliary qubit 11 is set by [qcirc.x(11)].
    These are the instructions the source appends for the values it uses,
    [k = 12] and [m = 8]: [qcirc.x(11)] needs [k >= 12] and the appended
    gate has five qubits, [k - m = 4]. *)
Definition qpe_circuit (k m : Z) : QuantumCircuit :=
  mkcircuit k m
    (map h (range 0 m)
     ++ [x 11]
     ++ map (fun i => append_cU_multi i (i :: range m k)) (range 0 m)
     ++ [barrier; qft_dagger (m - 1); barrier; measure (range 0 m) (range 0 m)]).

(** The simulator run with a single shot: the key of the one-entry counts
    dictionary, for the circuit and the number of earlier invocations. *)
Definition oracle : Type := QuantumCircuit -> nat -> sample.

(** ** One attempt: steps 2b to 5 *)

(** [phase_final = converted_phase/(2**int(lenth))] *)
Definition phase_final (init_phase : sample) : result float :=
  converted_phase <- int2 init_phase ;;
  let lenth := Z.of_nat (List.length init_phase) in
  Ok (truediv_pow2 converted_phase lenth).

(** Step 3: [r = (Fraction(phase_final).limit_denominator(15)).denominator] *)
Definition period_guess (init_phase : sample) : result Z :=
  ph <- phase_final init_phase ;;
  f <- Fractions.limit_denominator (Fractions.of_float ph) 15 ;;
  Ok (Fractions.denominator f).

(** Step 4: [guesses = [gcd(a**(r//2)-1, N), gcd(a**(r//2)+1, N)]] *)
Definition make_guesses (N a r : Z) : result (list Z) :=
  e <- floordiv r 2 ;;
  y <- int_pow a e ;;
  Ok [Z.gcd (y - 1) N; Z.gcd (y + 1) N].

(** [guess not in [1, N]] *)
Definition nontrivial (N guess : Z) : bool :=
  negb ((guess =? 1) || (guess =? N)).

(** Step 5: the [for guess in guesses] loop; the result is [gcheck] after
    the loop, flipped on the first accepted guess ([break]). *)
Fixpoint for_guess (N : Z) (guesses : list Z) (gcheck : bool) : result bool :=
  match guesses with
  | [] => Ok gcheck
  | guess :: rest =>
      if nontrivial N guess then
        match pymod N guess with
        | Ok rem => if rem =? 0 then Ok (negb gcheck) else for_guess N rest gcheck
        | Raise e => Raise e
        | Unfinished => Unfinished
        end
      else for_guess N rest gcheck
  end.

(** The body of the [while] loop after the simulator has run. *)
Definition attempt (N a : Z) (init_phase : sample) (gcheck : bool)
  : result (list Z * bool) :=
  r <- period_guess init_phase ;;
  guesses <- make_guesses N a r ;;
  gcheck' <- for_guess N guesses gcheck ;;
  Ok (guesses, gcheck').

(** ** The retry loop

    [while gcheck: ...; return guesses], with the number of simulator
    invocations made so far.  [Unfinished] with [calls] invocations: the loop
    is still running after that many attempts.  [N], [a], [k] and [m] are
    the local constants of [shor_qpe], which runs the loop with 15, 7, 12
    and 8. *)
Fixpoint while_gcheck (fuel : nat) (N a k m : Z) (sim : oracle) (calls : nat)
  : result (list Z) * nat :=
  match fuel with
  | O => (Unfinished, calls)
  | S fuel' =>
      let qcirc := qpe_circuit k m in
      let init_phase := sim qcirc calls in
      match attempt N a init_phase true with
      | Ok (guesses, gcheck) =>
          if gcheck then while_gcheck fuel' N a k m sim (S calls)
          else (Ok guesses, S calls)
      | Raise e => (Raise e, S calls)
      | Unfinished => (Unfinished, S calls)
      end
  end.

(** The modulus of the notebook. *)
Definition N : Z := 15.

(** The base used by [shor_qpe]. *)
Definition a : Z := 7.

Definition shor_qpe (k : Z) (sim : oracle) (fuel : nat) : result (list Z) * nat :=
  let N := 15 in
  let k := 12 in
  let a := 7 in
  let m := k - 4 in
  while_gcheck fuel N a k m sim 0.

(** ** Samples used in the scenarios *)

Definition bits (s : string) : sample :=
  map (fun c : ascii => Ascii.eqb c "1"%char) (list_ascii_of_string s).

Definition constant_oracle (s : sample) : oracle := fun _ _ => s.

(** The oracle that answers [s] first and then behaves as [rest]. *)
Definition oracle_cons (s : sample) (rest : oracle) : oracle :=
  fun qcirc i => match i with O => s | S j => rest qcirc j end.

(** Measures ["00000000"] once, then ["01000000"]. *)
Definition zero_then_quarter : oracle :=
  oracle_cons (bits "00000000") (constant_oracle (bits "01000000")).

(** Measures ["00000000"] on circuits of 12 qubits and nothing on others. *)
Definition twelve_qubit_oracle : oracle :=
  fun qcirc _ => if num_qubits qcirc =? 12 then bits "00000000" else [].


(** ** Specification vocabulary *)

(** The invariant of the loop of [limit_denominator] on the fraction
    [n0 / d0] from the second iteration on: [p0/q0] and [p1/q1] are
    consecutive convergents and [n/d] is the remaining tail. *)
Definition cf_inv (n0 d0 M : Z) (s : Fractions.cf) : Prop :=
  let p0 := Fractions.p0 s in
  let q0 := Fractions.q0 s in
  let p1 := Fractions.p1 s in
  let q1 := Fractions.q1 s in
  let n := Fractions.n s in
  let d := Fractions.d s in
  0 < d < n /\ 0 <= q0 <= q1 /\ 1 <= q1 <= M /\
  p1 * n + p0 * d = n0 /\ q1 * n + q0 * d = d0 /\
  (p1 * q0 - p0 * q1 = 1 \/ p1 * q0 - p0 * q1 = -1).

(** A fraction in lowest terms with a positive denominator. *)
Definition reduced (f : Fractions.Fraction) : Prop :=
  0 < Fractions.denominator f /\
  Z.gcd (Fractions.numerator f) (Fractions.denominator f) = 1.

(** [|x - p/q|] scaled by the denominators: [|x - p/q| * (den x * q)]. *)
Definition err (x : Fractions.Fraction) (p q : Z) : Z :=
  Z.abs (Fractions.numerator x * q - p * Fractions.denominator x).

(** [r] is the order of [a] modulo [N]. *)
Definition is_order (N a r : Z) : Prop :=
  0 < r /\ a ^ r mod N = 1 /\ forall r', 0 < r' < r -> a ^ r' mod N <> 1.

(** The same, decided by trying every exponent below [r]. *)
Definition is_orderb (N a r : Z) : bool :=
  (0 <? r) && (a ^ r mod N =? 1)
  && forallb (fun r' => negb (a ^ r' mod N =? 1)) (range 1 r).

(** The attempt on sample [s] leaves [gcheck] set: the loop goes on. *)
Definition rejects (N a : Z) (s : sample) : bool :=
  match attempt N a s true with
  | Ok (_, true) => true
  | _ => false
  end.

(** The rational value of a float and of a fraction. *)
Definition Q_of_float (x : float) : Q :=
  significand x # Z.to_pos (2 ^ scale x).

Definition Q_of_Fraction (f : Fractions.Fraction) : Q :=
  Fractions.numerator f # Z.to_pos (Fractions.denominator f).

(** ** The gate [7Mod15] and its controlled powers

    The gates [x] and [swap] permute the computational basis.  A basis
    state of a register is the integer whose bit [q] is the value of
    qubit [q]. *)

Module UGate.

Inductive gate : Type :=
| x (qubit : Z)
| swap (qubit1 qubit2 : Z).

(** [m = int(np.ceil(np.log2(N)))], which is 4 for [N = 15]. *)
Definition m : Z := Z.log2_up N.

(** [U_qc.x(range(m)); U_qc.swap(1, 2); U_qc.swap(2, 3); U_qc.swap(0, 3)] *)
Definition U_qc : list gate :=
  map x (range 0 m) ++ [swap 1 2; swap 2 3; swap 0 3].

(** [U = U_qc.to_gate()] *)
Definition U : list gate := U_qc.

(** The action of one gate on a basis state: [x] flips a bit, [swap]
    exchanges two bits. *)
Definition apply (g : gate) (s : Z) : Z :=
  match g with
  | x q => Z.lxor s (Z.shiftl 1 q)
  | swap q1 q2 =>
      if Bool.eqb (Z.testbit s q1) (Z.testbit s q2) then s
      else Z.lxor s (Z.lor (Z.shiftl 1 q1) (Z.shiftl 1 q2))
  end.

Definition run (gates : list gate) (s : Z) : Z :=
  fold_left (fun s g => apply g s) gates s.

(** [circ.append(gate, qargs)]: qubit [j] of the gate becomes qubit
    [qargs[j]] of the circuit. *)
Definition relabel (qargs : list Z) (g : gate) : gate :=
  match g with
  | x q => x (nth (Z.to_nat q) qargs 0)
  | swap q1 q2 => swap (nth (Z.to_nat q1) qargs 0) (nth (Z.to_nat q2) qargs 0)
  end.

Definition append (circ gates : list gate) (qargs : list Z) : list gate :=
  circ ++ map (relabel qargs) gates.

(** The gate returned by [U_multi.control()]: one control qubit, placed
    first, in front of the qubits of the base gate. *)
Record ControlledGate : Type :=
  mkControlled { num_ctrl_qubits : Z; base_gate : list gate }.

(** [cU_multi(k)]: [U] appended [2**k] times, then controlled.  With a
    negative [k], [2**k] is a float and [range] raises [TypeError]. *)
Definition cU_multi (k : Z) : result ControlledGate :=
  let sys_register_size := 4 in
  if k <? 0 then Raise TypeError
  else
    let circ :=
      Nat.iter (Z.to_nat (2 ^ k))
        (fun circ => append circ U (range 0 sys_register_size)) [] in
    Ok (mkControlled 1 circ).

(** The value held by the qubits [qs] of the state [s], [qs[0]] being the
    least significant. *)
Definition get_bits (s : Z) (qs : list Z) : Z :=
  fold_right (fun q acc => Z.b2z (Z.testbit s q) + 2 * acc) 0 qs.

Fixpoint set_bits (s : Z) (qs : list Z) (v : Z) : Z :=
  match qs with
  | [] => s
  | q :: rest =>
      set_bits (if Z.odd v then Z.setbit s q else Z.clearbit s q) rest (v / 2)
  end.

(** A controlled gate placed on [qargs = control :: targets]: the base
    gate acts on the targets when the control qubit is 1. *)
Definition apply_controlled (g : ControlledGate) (qargs : list Z) (s : Z) : Z :=
  match qargs with
  | [] => s
  | control :: targets =>
      if Z.testbit s control
      then set_bits s targets (run (base_gate g) (get_bits s targets))
      else s
  end.

End UGate.

(** The action on basis states of the [x] and controlled-[U] instructions
    of a circuit, in program order.  Hadamard gates, the inverse Fourier
    transform and the measurements do not map basis states to basis states
    and are left out, as are the barriers. *)
Definition basis_actions (instructions : list instruction)
  : list (Z -> result Z) :=
  flat_map
    (fun i =>
       match i with
       | x q => [fun s => Ok (UGate.apply (UGate.x q) s)]
       | append_cU_multi i qargs =>
           [fun s => g <- UGate.cU_multi i ;;
                     Ok (UGate.apply_controlled g qargs s)]
       | _ => []
       end)
    instructions.

Definition run_actions (actions : list (Z -> result Z)) (s : Z) : result Z :=
  fold_left (fun acc f => s' <- acc ;; f s') actions (Ok s).

(** * Properties *)

(** ** The library routines on known values *)

(** The examples of the documentation of [limit_denominator]. *)
Example limit_denominator_pi_10 :
  Fractions.limit_denominator
    (Fractions.mkFraction 3141592653589793 1000000000000000) 10
  = Ok (Fractions.mkFraction 22 7).
Proof. vm_compute. reflexivity. Qed.

Example limit_denominator_pi_100 :
  Fractions.limit_denominator
    (Fractions.mkFraction 3141592653589793 1000000000000000) 100
  = Ok (Fractions.mkFraction 311 99).
Proof. vm_compute. reflexivity. Qed.

Example limit_denominator_small :
  Fractions.limit_denominator (Fractions.mkFraction 4321 8765) 10000
  = Ok (Fractions.mkFraction 4321 8765).
Proof. vm_compute. reflexivity. Qed.

(** [(2**60 - 1) / 2**60 == 1.0]: sixty ones round up to [2**60]. *)
Example truediv_rounds_up :
  truediv_pow2 (2 ^ 60 - 1) 60 = mkfloat (2 ^ 60) 60.
Proof. vm_compute. reflexivity. Qed.

(** Ties go to the even significand. *)
Example truediv_ties_to_even :
  truediv_pow2 (2 ^ 53 + 1) 54 = mkfloat (2 ^ 53) 54 /\
  truediv_pow2 (2 ^ 53 + 3) 54 = mkfloat (2 ^ 53 + 4) 54.
Proof. split; vm_compute; reflexivity. Qed.

(** [b ** e]: an integer for [e >= 0]; for [e < 0] the exception of
    [0 ** e], of the conversion to a float, or of [gcd] on a float. *)
Example int_pow_known_values :
  int_pow 7 2 = Ok 49 /\
  int_pow 0 (-1) = Raise ZeroDivisionError /\
  int_pow 7 (-1) = Raise TypeError /\
  int_pow 0 (- 2 ^ 1024) = Raise OverflowError /\
  int_pow (2 ^ 1024) (-1) = Raise OverflowError /\
  int_pow (2 ^ 1024 - 2 ^ 970 - 1) (-1) = Raise TypeError.
Proof. repeat split; vm_compute; reflexivity. Qed.

(** The sample ["0000"]: phase 0, r = 1, guesses [[15, 1]], the loop goes on. *)
Example sample_0000_is_rejected :
  period_guess (bits "0000") = Ok 1 /\
  attempt N a (bits "0000") true = Ok ([15; 1], true).
Proof. split; vm_compute; reflexivity. Qed.

(** ** Integer arithmetic used below *)

Lemma mul_ge_r (u q : Z) : 1 <= u -> 0 <= q -> q <= u * q.
Proof. intros. nia. Qed.

Lemma nonneg_of_mul (e q : Z) : 0 < q -> 0 <= e * q -> 0 <= e.
Proof. intros. nia. Qed.

Lemma zero_of_mul (u c : Z) : 0 < c -> u * c = 0 -> u = 0.
Proof. intros. nia. Qed.

Lemma outside_arith (e Q Q1 q' T d d0 u w M : Z) :
  1 <= Q -> 1 <= Q1 -> M < Q + Q1 -> 1 <= q' <= M -> 0 < d <= T -> 0 < d0 ->
  e * Q = q' * T - u * d0 ->
  e * Q1 = - q' * d + w * d0 ->
  u * Q1 + w * Q = q' ->
  (d * q' <= Z.abs e * Q1 /\ (d * q' = Z.abs e * Q1 -> Q1 <= q')) \/
  (T * q' <= Z.abs e * Q /\ (T * q' = Z.abs e * Q -> Q <= q')).
Proof.
  intros HQ HQ1 HM Hq' HT Hd0 I1 I2 I3.
  assert (Hside : u <= 0 \/ w <= 0).
  { destruct (Z_le_gt_dec u 0); [left; lia|].
    destruct (Z_le_gt_dec w 0); [right; lia|]. exfalso.
    pose proof (mul_ge_r u Q1 ltac:(lia) ltac:(lia)).
    pose proof (mul_ge_r w Q ltac:(lia) ltac:(lia)). lia. }
  destruct Hside as [Hu|Hw].
  - right.
    assert (Hud : 0 <= - u * d0) by (apply Z.mul_nonneg_nonneg; lia).
    assert (HqT : 0 <= q' * T) by (apply Z.mul_nonneg_nonneg; lia).
    assert (He : 0 <= e) by (apply (nonneg_of_mul e Q); lia).
    rewrite (Z.abs_eq e He). split; [lia|].
    intros Heq. assert (Hu0 : u = 0) by (apply (zero_of_mul u d0); lia).
    subst u. assert (Hw : 1 <= w).
    { destruct (Z_le_gt_dec w 0) as [Hw|Hw]; [|lia]. exfalso.
      assert (0 <= - w * Q) by (apply Z.mul_nonneg_nonneg; lia). lia. }
    pose proof (mul_ge_r w Q ltac:(lia) ltac:(lia)). lia.
  - left.
    assert (Hwd : 0 <= - w * d0) by (apply Z.mul_nonneg_nonneg; lia).
    assert (Hqd : 0 <= q' * d) by (apply Z.mul_nonneg_nonneg; lia).
    assert (He : e <= 0).
    { assert (0 <= - e) by (apply (nonneg_of_mul (- e) Q1); lia). lia. }
    rewrite (Z.abs_neq e He). split; [lia|].
    intros Heq. assert (Hw0 : w = 0) by (apply (zero_of_mul w d0); lia).
    subst w. assert (Hu : 1 <= u).
    { destruct (Z_le_gt_dec u 0) as [Hu|Hu]; [|lia]. exfalso.
      assert (0 <= - u * Q1) by (apply Z.mul_nonneg_nonneg; lia). lia. }
    pose proof (mul_ge_r u Q1 ltac:(lia) ltac:(lia)). lia.
Qed.

Lemma mul_le_cancel (a b c : Z) : 0 < c -> a * c <= b * c -> a <= b.
Proof. intros Hc H. apply Z.mul_le_mono_pos_r in H; assumption. Qed.

Lemma mul_lt_cancel (a b c : Z) : 0 < c -> a * c < b * c -> a < b.
Proof. intros Hc H. apply Z.mul_lt_mono_pos_r in H; assumption. Qed.

Lemma mul_eq_cancel (a b c : Z) : 0 < c -> a * c = b * c -> a = b.
Proof. intros Hc H. apply Z.mul_cancel_r in H; lia. Qed.

Lemma choose_bound2 (d T Q Q1 q' e : Z) :
  0 < Q -> 0 < Q1 -> 1 <= q' -> 0 <= e -> 0 < d ->
  d * Q <= T * Q1 -> T * q' <= e * Q ->
  d * q' <= e * Q1 /\ (d * q' = e * Q1 -> T * q' = e * Q /\ d * Q = T * Q1).
Proof.
  intros HQ HQ1 Hq' He Hd Hcmp Hout.
  assert (H1 : d * Q * q' <= T * Q1 * q') by (apply Z.mul_le_mono_nonneg_r; lia).
  assert (H2 : T * q' * Q1 <= e * Q * Q1) by (apply Z.mul_le_mono_nonneg_r; lia).
  assert (H3 : d * q' * Q <= e * Q1 * Q) by lia.
  split; [apply (mul_le_cancel _ _ Q); assumption|].
  intros Heq.
  assert (H4 : d * q' * Q = e * Q1 * Q) by (rewrite Heq; reflexivity).
  split.
  - apply (mul_eq_cancel _ _ Q1); lia.
  - apply (mul_eq_cancel _ _ q'); lia.
Qed.

Lemma choose_bound1 (d T Q Q1 q' e : Z) :
  0 < Q -> 0 < Q1 -> 1 <= q' -> 0 <= e -> 0 < d ->
  T * Q1 < d * Q -> d * q' <= e * Q1 ->
  T * q' < e * Q.
Proof.
  intros HQ HQ1 Hq' He Hd Hcmp Hout.
  assert (H1 : T * Q1 * q' < d * Q * q') by (apply Z.mul_lt_mono_pos_r; lia).
  assert (H2 : d * q' * Q <= e * Q1 * Q) by (apply Z.mul_le_mono_nonneg_r; lia).
  apply (mul_lt_cancel _ _ Q1); lia.
Qed.

(** ** The loop of [limit_denominator] *)

Ltac open_inv H :=
  unfold cf_inv in H;
  cbn [Fractions.p0 Fractions.q0 Fractions.p1 Fractions.q1
       Fractions.n Fractions.d] in H.

Section ContinuedFraction.

Import Fractions.

Variables n0 d0 M : Z.
Hypothesis Hcoprime : Z.gcd n0 d0 = 1.
Hypothesis HM : 1 <= M.
Hypothesis Hd0 : M < d0.

Lemma cf_first_iteration :
  cf_inv n0 d0 M (mkcf 1 0 (n0 / d0) 1 d0 (n0 - n0 / d0 * d0)).
Proof.
  assert (Hd : 0 < d0) by lia.
  assert (Hmod : n0 - n0 / d0 * d0 = n0 mod d0)
    by (rewrite Z.mod_eq by lia; ring).
  assert (Hnz : n0 mod d0 <> 0).
  { intro H0. apply Z.mod_divide in H0; [|lia].
    assert (Hdiv : (d0 | Z.gcd n0 d0))
      by (apply Z.gcd_greatest; [assumption | apply Z.divide_refl]).
    rewrite Hcoprime in Hdiv. apply Z.divide_1_r_nonneg in Hdiv; lia. }
  pose proof (Z.mod_pos_bound n0 d0 Hd) as Hb.
  unfold cf_inv; cbn [p0 q0 p1 q1 n d]. rewrite Hmod.
  repeat split; lia.
Qed.

Lemma cf_step_inv (s : cf) :
  cf_inv n0 d0 M s ->
  q0 s + n s / d s * q1 s <= M ->
  cf_inv n0 d0 M
    (mkcf (p1 s) (q1 s) (p0 s + n s / d s * p1 s) (q0 s + n s / d s * q1 s)
          (d s) (n s - n s / d s * d s)).
Proof.
  destruct s as [P0 Q0 P1 Q1 n' d']; unfold cf_inv; cbn [p0 q0 p1 q1 n d].
  intros (Hd & Hq0 & Hq1 & Hn & Hden & Hdet) Hq2.
  set (a := n' / d') in *.
  assert (Hmod : n' - a * d' = n' mod d')
    by (unfold a; rewrite Z.mod_eq by lia; ring).
  assert (Ha : 1 <= a).
  { unfold a. apply Z.div_le_lower_bound; lia. }
  pose proof (Z.mod_pos_bound n' d' ltac:(lia)) as Hb.
  assert (Hnz : n' mod d' <> 0).
  { intro H0.
    assert (Hn0 : n0 = (P0 + a * P1) * d') by (rewrite <- Hn; nia).
    assert (Hd0' : d0 = (Q0 + a * Q1) * d') by (rewrite <- Hden; nia).
    assert (Hdiv : (d' | Z.gcd n0 d0)).
    { apply Z.gcd_greatest; [exists (P0 + a * P1) | exists (Q0 + a * Q1)];
        assumption. }
    rewrite Hcoprime in Hdiv. apply Z.divide_1_r_nonneg in Hdiv; [|lia].
    subst d'. lia. }
  rewrite Hmod. repeat split; try lia; try nia.
Qed.

Lemma cf_loop_terminates (fuel : nat) :
  forall s : cf,
    cf_inv n0 d0 M s ->
    (Z.to_nat (M - q1 s) + (if (q0 s =? 0)%Z then 1 else 0) < fuel)%nat ->
    exists s', cf_loop fuel M s = Ok s' /\ cf_inv n0 d0 M s' /\
               M < q0 s' + n s' / d s' * q1 s'.
Proof.
  induction fuel as [|fuel IH]; intros s Hinv Hfuel; [lia|].
  assert (Hbounds : 0 < d s < n s /\ 0 <= q0 s <= q1 s /\ 1 <= q1 s <= M)
    by (unfold cf_inv in Hinv; tauto).
  destruct Hbounds as (Hd & Hq0 & Hq1).
  cbn [cf_loop]. unfold floordiv.
  replace (d s =? 0) with false by (symmetry; apply Z.eqb_neq; lia).
  destruct (Z.gtb_spec (q0 s + n s / d s * q1 s) M) as [Hgt|Hle].
  - exists s. repeat split; try assumption; unfold cf_inv in Hinv; tauto.
  - apply IH.
    + apply cf_step_inv; assumption.
    + assert (Ha : 1 <= n s / d s) by (apply Z.div_le_lower_bound; lia).
      cbn [q0 q1].
      destruct (Z.eqb_spec (q0 s) 0), (Z.eqb_spec (q1 s) 0); try lia; nia.
Qed.

Lemma cf_loop_from_start :
  exists s, cf_loop (cf_fuel M) M (mkcf 0 1 1 0 n0 d0) = Ok s /\
            cf_inv n0 d0 M s /\ M < q0 s + n s / d s * q1 s.
Proof.
  unfold cf_fuel.
  change (cf_loop (S (S (Z.to_nat M))) M (mkcf 0 1 1 0 n0 d0))
    with (match floordiv n0 d0 with
          | Ok a =>
              if 1 + a * 0 >? M then Ok (mkcf 0 1 1 0 n0 d0)
              else cf_loop (S (Z.to_nat M)) M
                     (mkcf 1 0 (0 + a * 1) (1 + a * 0) d0 (n0 - a * d0))
          | Raise e => Raise e
          | Unfinished => Unfinished
          end).
  unfold floordiv.
  assert (Hd : (d0 =? 0) = false) by (apply Z.eqb_neq; lia).
  rewrite Hd.
  destruct (Z.gtb_spec (1 + n0 / d0 * 0) M) as [Hgt|_]; [lia|].
  replace (0 + n0 / d0 * 1) with (n0 / d0) by ring.
  replace (1 + n0 / d0 * 0) with 1 by ring.
  apply cf_loop_terminates.
  - apply cf_first_iteration.
  - cbn [q0 q1]. rewrite Z.eqb_refl. lia.
Qed.

(** At [break]: the two candidates [B1 = (p0+k*p1)/(q0+k*q1)] and
    [B2 = p1/q1] are neighbours whose denominators add up to more than [M],
    and [n0/d0] lies strictly between them.  No fraction with a denominator
    up to [M] fits between them, so every such fraction is at least as far
    from [n0/d0] as the candidate on its side. *)
Section AtBreak.

Variables P0 Q0 P1 Q1 n' d' : Z.
Hypothesis Hinv : cf_inv n0 d0 M (mkcf P0 Q0 P1 Q1 n' d').
Hypothesis Hbreak : M < Q0 + n' / d' * Q1.

Variables k P Q : Z.
Hypothesis Hk : k = (M - Q0) / Q1.
Hypothesis HP : P = P0 + k * P1.
Hypothesis HQ : Q = Q0 + k * Q1.

Lemma break_bounds :
  0 <= k /\ 1 <= Q <= M /\ M < Q + Q1 /\ d' <= n' - k * d' /\
  (k = 0 -> Q0 <> 0).
Proof.
  open_inv Hinv.
  destruct Hinv as (Hd & Hq0 & Hq1 & _).
  assert (Hk1 : k * Q1 <= M - Q0)
    by (rewrite Hk, Z.mul_comm; apply Z.mul_div_le; lia).
  assert (Hk2 : M - Q0 < (k + 1) * Q1).
  { rewrite Hk. pose proof (Z.mod_pos_bound (M - Q0) Q1 ltac:(lia)) as Hb.
    rewrite Z.mod_eq in Hb by lia. lia. }
  assert (Hk0 : 0 <= k) by (rewrite Hk; apply Z.div_pos; lia).
  assert (Hka : k + 1 <= n' / d') by nia.
  assert (Had : n' / d' * d' <= n')
    by (rewrite Z.mul_comm; apply Z.mul_div_le; lia).
  assert (Hkz : k = 0 -> Q0 <> 0).
  { intros Hz HQ0. rewrite Hz in Hk2. lia. }
  rewrite HQ. repeat split; try lia; try nia.
Qed.

Lemma break_errors :
  Z.abs (n0 * Q - P * d0) = n' - k * d' /\ Z.abs (n0 * Q1 - P1 * d0) = d'.
Proof.
  pose proof break_bounds as (Hk0 & HQb & HQQ & Hnk & _).
  open_inv Hinv.
  destruct Hinv as (Hd & Hq0 & Hq1 & Hn & Hden & Hdet).
  assert (E1 : n0 * Q - P * d0 = (P1 * Q0 - P0 * Q1) * (n' - k * d'))
    by (rewrite <- Hn, <- Hden, HP, HQ; ring).
  assert (E2 : n0 * Q1 - P1 * d0 = - (P1 * Q0 - P0 * Q1) * d')
    by (rewrite <- Hn, <- Hden; ring).
  rewrite E1, E2.
  destruct Hdet as [Hdet|Hdet]; rewrite Hdet; split; lia.
Qed.

Lemma break_coprime : Z.gcd P Q = 1 /\ Z.gcd P1 Q1 = 1.
Proof.
  open_inv Hinv.
  destruct Hinv as (_ & _ & _ & _ & _ & Hdet).
  split; apply Z.bezout_1_gcd.
  - destruct Hdet as [Hdet|Hdet].
    + exists (- Q1), P1. rewrite <- Hdet, HP, HQ. ring.
    + exists Q1, (- P1). replace 1 with (- -1) by reflexivity.
      rewrite <- Hdet, HP, HQ. ring.
  - destruct Hdet as [Hdet|Hdet].
    + exists Q0, (- P0). rewrite <- Hdet. ring.
    + exists (- Q0), P0. replace 1 with (- -1) by reflexivity.
      rewrite <- Hdet. ring.
Qed.

Lemma break_tie : d' * Q = (n' - k * d') * Q1 -> Q1 <= Q.
Proof.
  pose proof break_bounds as (Hk0 & HQb & HQQ & Hnk & Hkz).
  open_inv Hinv.
  destruct Hinv as (Hd & Hq0 & Hq1 & _).
  intros Htie. destruct (Z.eq_dec k 0) as [Hz|Hnz].
  - exfalso. rewrite HQ, Hz in Htie.
    replace (Q0 + 0 * Q1) with Q0 in Htie by ring.
    replace (n' - 0 * d') with n' in Htie by ring. nia.
  - rewrite HQ. nia.
Qed.

Lemma break_outside (p' q' : Z) :
  1 <= q' <= M ->
  let e := Z.abs (n0 * q' - p' * d0) in
  (d' * q' <= e * Q1 /\ (d' * q' = e * Q1 -> Q1 <= q')) \/
  ((n' - k * d') * q' <= e * Q /\ ((n' - k * d') * q' = e * Q -> Q <= q')).
Proof.
  intros Hq'. cbv zeta.
  pose proof break_bounds as (Hk0 & HQb & HQQ & Hnk & _).
  open_inv Hinv.
  destruct Hinv as (Hd & Hq0 & Hq1 & Hn & Hden & Hdet).
  set (u := p' * Q - P * q').
  set (w := P1 * q' - p' * Q1).
  set (e := n0 * q' - p' * d0).
  assert (I1 : e * Q = q' * (P1 * Q0 - P0 * Q1) * (n' - k * d') - u * d0)
    by (unfold e, u; rewrite <- Hn, <- Hden, HP, HQ; ring).
  assert (I2 : e * Q1 = - q' * (P1 * Q0 - P0 * Q1) * d' + w * d0)
    by (unfold e, w; rewrite <- Hn, <- Hden; ring).
  assert (I3 : u * Q1 + w * Q = (P1 * Q0 - P0 * Q1) * q')
    by (unfold u, w; rewrite HP, HQ; ring).
  destruct Hdet as [Hdet|Hdet]; rewrite Hdet in I1, I2, I3.
  - apply (outside_arith e Q Q1 q' (n' - k * d') d' d0 u w M); lia.
  - rewrite <- (Z.abs_opp e).
    apply (outside_arith (- e) Q Q1 q' (n' - k * d') d' d0 (- u) (- w) M); lia.
Qed.

End AtBreak.

End ContinuedFraction.

(** ** Normalisation of fractions *)

Section Normalisation.

Import Fractions.

Lemma normalize_factor (n d : Z) :
  0 < d ->
  exists g, 0 < g /\ n = g * numerator (normalize n d) /\
            d = g * denominator (normalize n d).
Proof.
  intros Hd. unfold normalize.
  destruct (Z.ltb_spec d 0) as [Hneg|_]; [lia|].
  cbn [numerator denominator].
  pose proof (Z.gcd_nonneg n d) as Hg.
  assert (Hg0 : Z.gcd n d <> 0).
  { intro H0. apply Z.gcd_eq_0_r in H0. lia. }
  exists (Z.gcd n d). repeat split; try lia.
  - apply Zdivide_Zdiv_eq; [lia | apply Z.gcd_divide_l].
  - apply Zdivide_Zdiv_eq; [lia | apply Z.gcd_divide_r].
Qed.

Lemma normalize_reduced (n d : Z) : 0 < d -> reduced (normalize n d).
Proof.
  intros Hd. destruct (normalize_factor n d Hd) as (g & Hg & Hn & Hden).
  unfold reduced. split; [nia|].
  unfold normalize. destruct (Z.ltb_spec d 0) as [Hneg|_]; [lia|].
  cbn [numerator denominator].
  apply Z.gcd_div_gcd; [|reflexivity].
  intro H0. apply Z.gcd_eq_0_r in H0. lia.
Qed.

Lemma normalize_id (n d : Z) :
  0 < d -> Z.gcd n d = 1 -> normalize n d = mkFraction n d.
Proof.
  intros Hd Hg. unfold normalize. rewrite Hg.
  destruct (Z.ltb_spec d 0) as [Hneg|_]; [lia|].
  rewrite !Z.div_1_r. reflexivity.
Qed.

Lemma le_abs_normalize (n1 d1 n2 d2 : Z) :
  0 < d1 -> 0 < d2 ->
  le (abs (normalize n1 d1)) (abs (normalize n2 d2))
  = (Z.abs n1 * d2 <=? Z.abs n2 * d1).
Proof.
  intros Hd1 Hd2.
  destruct (normalize_factor n1 d1 Hd1) as (g1 & Hg1 & Hn1 & Hden1).
  destruct (normalize_factor n2 d2 Hd2) as (g2 & Hg2 & Hn2 & Hden2).
  unfold le, abs; cbn [numerator denominator].
  set (a1 := numerator (normalize n1 d1)) in *.
  set (b1 := denominator (normalize n1 d1)) in *.
  set (a2 := numerator (normalize n2 d2)) in *.
  set (b2 := denominator (normalize n2 d2)) in *.
  rewrite Hn1, Hden1, Hn2, Hden2, !Z.abs_mul.
  rewrite (Z.abs_eq g1), (Z.abs_eq g2) by lia.
  apply Bool.eq_iff_eq_true. rewrite !Z.leb_le.
  replace (g1 * Z.abs a1 * (g2 * b2)) with (g1 * g2 * (Z.abs a1 * b2)) by ring.
  replace (g2 * Z.abs a2 * (g1 * b1)) with (g1 * g2 * (Z.abs a2 * b1)) by ring.
  apply Z.mul_le_mono_pos_l. nia.
Qed.

End Normalisation.

(** ** [limit_denominator] returns the closest fraction *)

Section LimitDenominator.

Import Fractions.

(** The fraction returned for [x] is in lowest terms, its denominator is
    at most [M], no fraction with a denominator in [1..M] is closer to [x],
    and one that is as close has a denominator at least as large. *)
Lemma limit_denominator_closest (x : Fraction) (M : Z) :
  reduced x -> 1 <= M ->
  exists f, limit_denominator x M = Ok f /\ reduced f /\ denominator f <= M /\
    forall p' q', 1 <= q' <= M ->
      err x (numerator f) (denominator f) * q' <= err x p' q' * denominator f /\
      (err x (numerator f) (denominator f) * q' = err x p' q' * denominator f ->
       denominator f <= q').
Proof.
  intros [Hden Hgcd] HM. destruct x as [n0 d0]; cbn [numerator denominator] in *.
  unfold limit_denominator; cbn [numerator denominator].
  destruct (Z.ltb_spec M 1) as [?|_]; [lia|].
  destruct (Z.leb_spec d0 M) as [Hsmall|Hbig].
  - exists (mkFraction n0 d0). cbn [numerator denominator].
    split; [reflexivity|]. split; [split; assumption|]. split; [assumption|].
    intros p' q' Hq'. unfold err; cbn [numerator denominator].
    replace (n0 * d0 - n0 * d0) with 0 by ring. cbn [Z.abs Z.mul].
    split; [apply Z.mul_nonneg_nonneg; [apply Z.abs_nonneg | lia]|].
    intros Heq. symmetry in Heq. apply zero_of_mul in Heq; [|lia].
    apply Z.abs_0_iff in Heq.
    assert (Hdiv : (d0 | q')).
    { apply Z.gauss with n0; [exists p'; lia|].
      rewrite Z.gcd_comm. assumption. }
    apply Z.divide_pos_le in Hdiv; lia.
  - destruct (cf_loop_from_start n0 d0 M Hgcd HM Hbig) as (s & Hloop & Hinv & Hbreak).
    rewrite Hloop. cbn [bind]. destruct s as [P0 Q0 P1 Q1 n' d'].
    cbn [p0 q0 p1 q1 n d] in *.
    pose (k := (M - Q0) / Q1). pose (P := P0 + k * P1). pose (Q := Q0 + k * Q1).
    pose (T := n' - k * d').
    pose proof (break_bounds n0 d0 M HM Hbig P0 Q0 P1 Q1 n' d' Hinv Hbreak
                  k Q eq_refl eq_refl) as (Hk & HQ & HQQ & HT & _).
    pose proof (break_errors n0 d0 M HM Hbig P0 Q0 P1 Q1 n' d' Hinv Hbreak
                  k P Q eq_refl eq_refl eq_refl) as (E1 & E2).
    pose proof (break_coprime n0 d0 M P0 Q0 P1 Q1 n' d' Hinv
                  k P Q eq_refl eq_refl) as (C1 & C2).
    pose proof (break_tie n0 d0 M HM Hbig P0 Q0 P1 Q1 n' d' Hinv Hbreak
                  k Q eq_refl eq_refl) as Htie.
    pose proof (break_outside n0 d0 M HM Hbig P0 Q0 P1 Q1 n' d' Hinv Hbreak
                  k P Q eq_refl eq_refl eq_refl) as Hout.
    assert (Hbounds : 0 < d' /\ 1 <= Q1 <= M)
      by (open_inv Hinv; lia).
    destruct Hbounds as (Hd' & HQ1).
    fold T in HT, E1, Htie, Hout.
    unfold floordiv, new.
    replace (Q1 =? 0) with false by (symmetry; apply Z.eqb_neq; lia).
    cbn [bind]. fold k. fold P. fold Q.
    replace (Q =? 0) with false by (symmetry; apply Z.eqb_neq; lia).
    cbn [bind].
    rewrite (normalize_id P Q), (normalize_id P1 Q1) by (assumption || lia).
    unfold sub; cbn [numerator denominator].
    rewrite le_abs_normalize by nia.
    replace (Z.abs (P1 * d0 - n0 * Q1)) with d'
      by (rewrite <- E2, <- Z.abs_opp; f_equal; ring).
    replace (Z.abs (P * d0 - n0 * Q)) with T
      by (rewrite <- E1, <- Z.abs_opp; f_equal; ring).
    destruct (Z.leb_spec (d' * (Q * d0)) (T * (Q1 * d0))) as [Hcmp|Hcmp].
    + assert (Hcmp' : d' * Q <= T * Q1).
      { apply (mul_le_cancel _ _ d0); lia. }
      exists (mkFraction P1 Q1). unfold reduced. cbn [numerator denominator].
      split; [reflexivity|]. split; [split; [lia | assumption]|].
      split; [lia|]. intros p' q' Hq'. unfold err; cbn [numerator denominator].
      rewrite E2. specialize (Hout p' q' Hq'). cbv zeta in Hout.
      set (e := Z.abs (n0 * q' - p' * d0)) in *.
      destruct Hout as [[Hle Heq]|[Hle Heq]]; [split; assumption|].
      assert (He : 0 <= e) by apply Z.abs_nonneg.
      destruct (choose_bound2 d' T Q Q1 q' e ltac:(lia) ltac:(lia) ltac:(lia)
                  He Hd' Hcmp' Hle) as (Hle2 & Heq2).
      split; [assumption|]. intros Hties.
      destruct (Heq2 Hties) as (Ht1 & Ht2).
      specialize (Heq Ht1). specialize (Htie Ht2). lia.
    + assert (Hcmp' : T * Q1 < d' * Q).
      { apply (mul_lt_cancel _ _ d0); lia. }
      exists (mkFraction P Q). unfold reduced. cbn [numerator denominator].
      split; [reflexivity|]. split; [split; [lia | assumption]|].
      split; [lia|]. intros p' q' Hq'. unfold err; cbn [numerator denominator].
      rewrite E1. specialize (Hout p' q' Hq'). cbv zeta in Hout.
      set (e := Z.abs (n0 * q' - p' * d0)) in *.
      destruct Hout as [[Hle Heq]|[Hle Heq]]; [|split; assumption].
      assert (He : 0 <= e) by apply Z.abs_nonneg.
      assert (Hlt : T * q' < e * Q)
        by (apply (choose_bound1 d' T Q Q1 q' e); lia).
      split; lia.
Qed.

End LimitDenominator.

(** ** Distances between rationals *)

Lemma Qdist_le (n0 p p' : Z) (d0 q q' : positive) :
  (Qabs ((n0 # d0) - (p # q)) <= Qabs ((n0 # d0) - (p' # q')))%Q <->
  Z.abs (n0 * Z.pos q - p * Z.pos d0) * Z.pos q'
  <= Z.abs (n0 * Z.pos q' - p' * Z.pos d0) * Z.pos q.
Proof.
  unfold Qle, Qabs, Qminus, Qplus, Qopp; cbn [Qnum Qden].
  rewrite !Pos2Z.inj_mul.
  replace (n0 * Z.pos q + - p * Z.pos d0) with (n0 * Z.pos q - p * Z.pos d0) by ring.
  replace (n0 * Z.pos q' + - p' * Z.pos d0) with (n0 * Z.pos q' - p' * Z.pos d0) by ring.
  set (e := Z.abs (n0 * Z.pos q - p * Z.pos d0)).
  set (e' := Z.abs (n0 * Z.pos q' - p' * Z.pos d0)).
  replace (e * (Z.pos d0 * Z.pos q')) with (e * Z.pos q' * Z.pos d0) by ring.
  replace (e' * (Z.pos d0 * Z.pos q)) with (e' * Z.pos q * Z.pos d0) by ring.
  symmetry. apply Z.mul_le_mono_pos_r. lia.
Qed.

Lemma Qdist_eq (n0 p p' : Z) (d0 q q' : positive) :
  (Qabs ((n0 # d0) - (p # q)) == Qabs ((n0 # d0) - (p' # q')))%Q <->
  Z.abs (n0 * Z.pos q - p * Z.pos d0) * Z.pos q'
  = Z.abs (n0 * Z.pos q' - p' * Z.pos d0) * Z.pos q.
Proof.
  unfold Qeq, Qabs, Qminus, Qplus, Qopp; cbn [Qnum Qden].
  rewrite !Pos2Z.inj_mul.
  replace (n0 * Z.pos q + - p * Z.pos d0) with (n0 * Z.pos q - p * Z.pos d0) by ring.
  replace (n0 * Z.pos q' + - p' * Z.pos d0) with (n0 * Z.pos q' - p' * Z.pos d0) by ring.
  set (e := Z.abs (n0 * Z.pos q - p * Z.pos d0)).
  set (e' := Z.abs (n0 * Z.pos q' - p' * Z.pos d0)).
  replace (e * (Z.pos d0 * Z.pos q')) with (e * Z.pos q' * Z.pos d0) by ring.
  replace (e' * (Z.pos d0 * Z.pos q)) with (e' * Z.pos q * Z.pos d0) by ring.
  split; intros H.
  - apply (mul_eq_cancel _ _ (Z.pos d0)); [lia | assumption].
  - rewrite H. reflexivity.
Qed.

(** [Fraction(x)] has the value of the float [x]. *)
Lemma Q_of_float_of_float (x : float) :
  0 <= scale x ->
  (Q_of_float x == Q_of_Fraction (Fractions.of_float x))%Q.
Proof.
  intros Hs. unfold Q_of_float, Q_of_Fraction, Fractions.of_float.
  assert (Hpow : 0 < 2 ^ scale x) by (apply Z.pow_pos_nonneg; lia).
  destruct (normalize_factor (significand x) (2 ^ scale x) Hpow)
    as (g & Hg & Hn & Hd).
  set (f := Fractions.normalize (significand x) (2 ^ scale x)) in *.
  assert (Hden : 0 < Fractions.denominator f) by nia.
  unfold Qeq; cbn [Qnum Qden]. rewrite !Z2Pos.id by assumption.
  rewrite Hd. rewrite Hn at 1. ring.
Qed.

(** The same statement as [limit_denominator_closest], on rationals. *)
Lemma limit_denominator_closest_Q (x : Fractions.Fraction) (M : Z) :
  reduced x -> 1 <= M ->
  exists f, Fractions.limit_denominator x M = Ok f /\
    1 <= Fractions.denominator f <= M /\
    forall (p' : Z) (q' : positive), Z.pos q' <= M ->
      (Qabs (Q_of_Fraction x - Q_of_Fraction f)
       <= Qabs (Q_of_Fraction x - (p' # q')))%Q /\
      ((Qabs (Q_of_Fraction x - Q_of_Fraction f)
        == Qabs (Q_of_Fraction x - (p' # q')))%Q ->
       Fractions.denominator f <= Z.pos q').
Proof.
  intros Hx HM.
  destruct (limit_denominator_closest x M Hx HM) as (f & Hf & [Hfd Hfg] & HfM & Hbest).
  exists f. split; [assumption|]. split; [lia|].
  intros p' q' Hq'. destruct Hx as [Hxd _].
  unfold Q_of_Fraction. unfold err in Hbest.
  specialize (Hbest p' (Z.pos q') ltac:(lia)).
  rewrite Qdist_le, Qdist_eq, !Z2Pos.id by assumption.
  exact Hbest.
Qed.

(** ** Reading the sample *)

Lemma fold_bits_bound (s : sample) :
  forall acc,
    fold_left (fun acc (b : bool) => 2 * acc + Z.b2z b) s acc
    = acc * 2 ^ Z.of_nat (List.length s)
      + fold_left (fun acc (b : bool) => 2 * acc + Z.b2z b) s 0
    /\ 0 <= fold_left (fun acc (b : bool) => 2 * acc + Z.b2z b) s 0
         < 2 ^ Z.of_nat (List.length s).
Proof.
  induction s as [|b s IH]; intros acc.
  - cbn. lia.
  - cbn [fold_left List.length]. rewrite Nat2Z.inj_succ, Z.pow_succ_r by lia.
    destruct (IH (2 * acc + Z.b2z b)) as [E1 _].
    destruct (IH (2 * 0 + Z.b2z b)) as [E2 Hb].
    rewrite E1, E2. destruct b; cbn [Z.b2z]; lia.
Qed.

Lemma int2_value (s : sample) :
  s <> [] ->
  exists v, int2 s = Ok v /\ 0 <= v < 2 ^ Z.of_nat (List.length s).
Proof.
  intros Hs. destruct s as [|b s]; [congruence|].
  eexists. split; [reflexivity|].
  exact (proj2 (fold_bits_bound (b :: s) 0)).
Qed.

Lemma truediv_pow2_scale (v len : Z) : scale (truediv_pow2 v len) = len.
Proof. unfold truediv_pow2. destruct (_ =? 0); reflexivity. Qed.

Lemma phase_final_ok (s : sample) :
  s <> [] ->
  exists v, int2 s = Ok v /\ 0 <= v < 2 ^ Z.of_nat (List.length s) /\
            phase_final s = Ok (truediv_pow2 v (Z.of_nat (List.length s))).
Proof.
  intros Hs. destruct (int2_value s Hs) as (v & Hv & Hb).
  exists v. unfold phase_final. rewrite Hv. auto.
Qed.

Lemma of_float_reduced (x : float) :
  0 <= scale x -> reduced (Fractions.of_float x).
Proof.
  intros Hs. apply normalize_reduced. apply Z.pow_pos_nonneg; lia.
Qed.

(** Step 3 never fails on a sample the simulator can return. *)
Lemma period_guess_ok (s : sample) :
  s <> [] ->
  exists ph f, phase_final s = Ok ph /\ scale ph = Z.of_nat (List.length s) /\
    Fractions.limit_denominator (Fractions.of_float ph) 15 = Ok f /\
    period_guess s = Ok (Fractions.denominator f) /\
    1 <= Fractions.denominator f <= 15.
Proof.
  intros Hs. destruct (phase_final_ok s Hs) as (v & _ & _ & Hph).
  set (ph := truediv_pow2 v (Z.of_nat (List.length s))) in *.
  assert (Hsc : scale ph = Z.of_nat (List.length s)) by apply truediv_pow2_scale.
  destruct (limit_denominator_closest (Fractions.of_float ph) 15)
    as (f & Hf & [Hfd _] & HfM & _);
    [apply of_float_reduced; lia | lia |].
  exists ph, f. unfold period_guess. rewrite Hph. cbn [bind]. rewrite Hf.
  cbn [bind]. repeat split; try assumption; lia.
Qed.

(** C5. For every sample, the period guess [r] of step 3 is the denominator
    of a fraction [p/r] with [1 <= r <= N] that is at least as close to the
    sampled phase as any fraction [p'/q'] with [1 <= q' <= N], and any
    fraction as close has a denominator [q' >= r]. *)
Theorem period_guess_closest_fraction (init_phase : sample) :
  init_phase <> [] ->
  exists (ph : float) (p r : Z),
    phase_final init_phase = Ok ph /\ period_guess init_phase = Ok r /\
    1 <= r <= N /\
    forall (p' : Z) (q' : positive), Z.pos q' <= N ->
      (Qabs (Q_of_float ph - (p # Z.to_pos r))
       <= Qabs (Q_of_float ph - (p' # q')))%Q /\
      ((Qabs (Q_of_float ph - (p # Z.to_pos r))
        == Qabs (Q_of_float ph - (p' # q')))%Q -> r <= Z.pos q').
Proof.
  intros Hs.
  destruct (period_guess_ok init_phase Hs) as (ph & f & Hph & Hsc & Hf & Hr & Hb).
  assert (Hscale : 0 <= scale ph) by lia.
  destruct (limit_denominator_closest_Q (Fractions.of_float ph) 15
              (of_float_reduced ph Hscale) ltac:(lia))
    as (f' & Hf' & _ & Hbest).
  rewrite Hf in Hf'. injection Hf' as <-.
  exists ph, (Fractions.numerator f), (Fractions.denominator f).
  split; [assumption|]. split; [assumption|]. split; [exact Hb|].
  intros p' q' Hq'. specialize (Hbest p' q' Hq').
  rewrite <- (Q_of_float_of_float ph Hscale) in Hbest. exact Hbest.
Qed.

Lemma period_guess_closest_fraction_witness :
  bits "01010101" <> [] /\
  exists (ph : float) (p r : Z),
    phase_final (bits "01010101") = Ok ph /\
    period_guess (bits "01010101") = Ok r /\
    1 <= r <= N /\
    forall (p' : Z) (q' : positive), Z.pos q' <= N ->
      (Qabs (Q_of_float ph - (p # Z.to_pos r))
       <= Qabs (Q_of_float ph - (p' # q')))%Q /\
      ((Qabs (Q_of_float ph - (p # Z.to_pos r))
        == Qabs (Q_of_float ph - (p' # q')))%Q -> r <= Z.pos q').
Proof.
  assert (H : bits "01010101" <> []) by (vm_compute; discriminate).
  split; [exact H | exact (period_guess_closest_fraction _ H)].
Defined.

(** ** One attempt *)

Lemma make_guesses_ok (N a r : Z) :
  0 <= r ->
  make_guesses N a r = Ok [Z.gcd (a ^ (r / 2) - 1) N; Z.gcd (a ^ (r / 2) + 1) N].
Proof.
  intros Hr. unfold make_guesses, floordiv, int_pow. cbn [Z.eqb bind].
  destruct (Z.ltb_spec (r / 2) 0) as [Hneg|_]; [|reflexivity].
  pose proof (Z.div_pos r 2 Hr ltac:(lia)). lia.
Qed.

Lemma make_guesses_inv (N a r : Z) (gs : list Z) :
  make_guesses N a r = Ok gs ->
  gs = [Z.gcd (a ^ (r / 2) - 1) N; Z.gcd (a ^ (r / 2) + 1) N].
Proof.
  unfold make_guesses, floordiv, int_pow. cbn [Z.eqb bind].
  destruct (r / 2 <? 0); [|cbn [bind]; congruence].
  destruct (float_overflow a || float_overflow (r / 2)); [discriminate|].
  destruct (a =? 0); discriminate.
Qed.

(** A guess that divides [N] and is neither 1 nor [N] passes the test
    [(N % guess) == 0]; the loop over the guesses then only asks whether
    some guess is outside [[1, N]]. *)
Lemma for_guess_divisors (N : Z) (guesses : list Z) (gcheck : bool) :
  Forall (fun g => (g | N)) guesses ->
  for_guess N guesses gcheck
  = Ok (if existsb (nontrivial N) guesses then negb gcheck else gcheck).
Proof.
  induction 1 as [|g gs Hg _ IH]; [reflexivity|].
  cbn [for_guess existsb]. destruct (nontrivial N g) eqn:Hnt; [|exact IH].
  cbn [orb]. unfold pymod.
  destruct (Z.eqb_spec g 0) as [H0|H0].
  - subst g. destruct Hg as [c Hc]. unfold nontrivial in Hnt.
    replace (0 =? N) with true in Hnt by (symmetry; apply Z.eqb_eq; lia).
    rewrite orb_true_r in Hnt. discriminate.
  - apply Z.mod_divide in Hg; [|assumption]. rewrite Hg. reflexivity.
Qed.

Lemma period_guess_nonempty (s : sample) (r : Z) :
  period_guess s = Ok r -> s <> [].
Proof. intros H Hs. subst s. discriminate. Qed.

Lemma period_guess_range (s : sample) (r : Z) :
  period_guess s = Ok r -> 1 <= r <= 15.
Proof.
  intros H.
  destruct (period_guess_ok s (period_guess_nonempty s r H))
    as (ph & f & _ & _ & _ & Hr & Hb).
  congruence.
Qed.

(** What one iteration of the loop computes. *)
Lemma attempt_inv (N a : Z) (s : sample) (gcheck : bool) (gs : list Z) (g' : bool) :
  attempt N a s gcheck = Ok (gs, g') ->
  exists r, period_guess s = Ok r /\ 1 <= r <= 15 /\
    gs = [Z.gcd (a ^ (r / 2) - 1) N; Z.gcd (a ^ (r / 2) + 1) N] /\
    g' = (if existsb (nontrivial N) gs then negb gcheck else gcheck).
Proof.
  unfold attempt. destruct (period_guess s) as [r| |] eqn:Hr; try discriminate.
  pose proof (period_guess_range s r Hr) as Hb. cbn [bind].
  rewrite make_guesses_ok by lia. cbn [bind].
  rewrite for_guess_divisors
    by (repeat constructor; apply Z.gcd_divide_r).
  cbn [bind]. intros H. injection H as <- <-. exists r. auto.
Qed.

(** An attempt on a non-empty sample raises nothing, whatever [N] and [a]. *)
Lemma attempt_ok (N a : Z) (s : sample) (gcheck : bool) :
  s <> [] ->
  exists gs g', attempt N a s gcheck = Ok (gs, g').
Proof.
  intros Hs. destruct (period_guess_ok s Hs) as (ph & f & _ & _ & _ & Hr & Hb).
  unfold attempt. rewrite Hr. cbn [bind].
  rewrite make_guesses_ok by lia. cbn [bind].
  rewrite for_guess_divisors
    by (repeat constructor; apply Z.gcd_divide_r).
  cbn [bind]. eauto.
Qed.

Lemma attempt_finishes (N a : Z) (s : sample) (gcheck : bool) :
  attempt N a s gcheck <> Unfinished.
Proof.
  destruct s as [|b s]; [discriminate|].
  destruct (attempt_ok N a (b :: s) gcheck) as (gs & g' & Hok); congruence.
Qed.

Lemma rejects_spec (N a : Z) (s : sample) :
  rejects N a s = true <-> exists gs, attempt N a s true = Ok (gs, true).
Proof.
  unfold rejects. destruct (attempt N a s true) as [[gs [|]]| |]; split;
    try discriminate; try (intros [gs' H]; discriminate); eauto.
Qed.

(** ** The retry loop *)

Section Loop.

Variables N' a' k m : Z.
Variable sim : oracle.

Lemma while_gcheck_S (fuel calls : nat) :
  while_gcheck (S fuel) N' a' k m sim calls
  = match attempt N' a' (sim (qpe_circuit k m) calls) true with
    | Ok (guesses, gcheck) =>
        if gcheck then while_gcheck fuel N' a' k m sim (S calls)
        else (Ok guesses, S calls)
    | Raise e => (Raise e, S calls)
    | Unfinished => (Unfinished, S calls)
    end.
Proof. reflexivity. Qed.

(** While the samples are rejected the loop keeps running. *)
Lemma while_gcheck_rejecting (fuel : nat) :
  forall calls,
    (forall i, (i < fuel)%nat ->
       rejects N' a' (sim (qpe_circuit k m) (calls + i)%nat) = true) ->
    while_gcheck fuel N' a' k m sim calls = (Unfinished, (calls + fuel)%nat).
Proof.
  induction fuel as [|fuel IH]; intros calls Hrej.
  - cbn. f_equal. lia.
  - rewrite while_gcheck_S.
    pose proof (Hrej 0%nat ltac:(lia)) as H0. rewrite Nat.add_0_r in H0.
    apply rejects_spec in H0 as [gs H0]. rewrite H0.
    rewrite IH; [f_equal; lia|].
    intros i Hi. replace (S calls + i)%nat with (calls + S i)%nat by lia.
    apply Hrej. lia.
Qed.

(** The loop returns at the first sample that is accepted. *)
Lemma while_gcheck_first_accept (n : nat) :
  forall calls fuel gs,
    (forall i, (i < n)%nat ->
       rejects N' a' (sim (qpe_circuit k m) (calls + i)%nat) = true) ->
    attempt N' a' (sim (qpe_circuit k m) (calls + n)%nat) true = Ok (gs, false) ->
    (n < fuel)%nat ->
    while_gcheck fuel N' a' k m sim calls = (Ok gs, S (calls + n)%nat).
Proof.
  induction n as [|n IH]; intros calls fuel gs Hrej Hacc Hfuel;
    (destruct fuel as [|fuel]; [lia|]); rewrite while_gcheck_S.
  - rewrite Nat.add_0_r in Hacc. rewrite Hacc. f_equal. f_equal. lia.
  - pose proof (Hrej 0%nat ltac:(lia)) as H0. rewrite Nat.add_0_r in H0.
    apply rejects_spec in H0 as [gs0 H0]. rewrite H0.
    rewrite (IH (S calls) fuel gs).
    + f_equal. f_equal. lia.
    + intros i Hi. replace (S calls + i)%nat with (calls + S i)%nat by lia.
      apply Hrej. lia.
    + replace (S calls + n)%nat with (calls + S n)%nat by lia. exact Hacc.
    + lia.
Qed.

(** A returned list comes from the first accepted sample. *)
Lemma while_gcheck_returned (fuel : nat) :
  forall calls gs c,
    while_gcheck fuel N' a' k m sim calls = (Ok gs, c) ->
    exists n, c = S (calls + n)%nat /\ (n < fuel)%nat /\
      (forall i, (i < n)%nat ->
         rejects N' a' (sim (qpe_circuit k m) (calls + i)%nat) = true) /\
      attempt N' a' (sim (qpe_circuit k m) (calls + n)%nat) true = Ok (gs, false).
Proof.
  induction fuel as [|fuel IH]; intros calls gs c Hrun; [discriminate|].
  rewrite while_gcheck_S in Hrun.
  destruct (attempt N' a' (sim (qpe_circuit k m) calls) true)
    as [[gs0 [|]]| |] eqn:Hatt; try discriminate.
  - destruct (IH _ _ _ Hrun) as (n & Hc & Hn & Hrej & Hacc).
    exists (S n). split; [lia|]. split; [lia|]. split.
    + intros [|i] Hi.
      * rewrite Nat.add_0_r. apply rejects_spec. eauto.
      * replace (calls + S i)%nat with (S calls + i)%nat by lia.
        apply Hrej. lia.
    + replace (calls + S n)%nat with (S calls + n)%nat by lia. exact Hacc.
  - injection Hrun as <- <-. exists 0%nat.
    split; [lia|]. split; [lia|]. split; [intros i Hi; lia|].
    rewrite Nat.add_0_r. exact Hatt.
Qed.

End Loop.

(** ** Termination of [shor_qpe] *)

(** C1, as stated, does not hold: [shor_qpe] has no bound on the number of
    attempts and no failure result.  On the simulator that always measures
    ["00000000"] (phase 0, r = 1, guesses [[15, 1]]) the loop is still
    running after one attempt, and after any number of attempts. *)
Lemma shor_qpe_never_returns_on_zero_phase :
  shor_qpe 12 (constant_oracle (bits "00000000")) 1 = (Unfinished, 1%nat) /\
  forall fuel : nat,
    shor_qpe 12 (constant_oracle (bits "00000000")) fuel = (Unfinished, fuel).
Proof.
  split; [reflexivity|]. intros fuel. unfold shor_qpe.
  rewrite while_gcheck_rejecting; [reflexivity|].
  intros i _. reflexivity.
Qed.

(** C1, amended.  [shor_qpe] retries without bound: as long as the samples
    are rejected the loop keeps running, and it returns the guesses of the
    first accepted sample, after exactly that many simulator runs. *)
Theorem shor_qpe_retries_until_accepted (k : Z) (sim : oracle) (n : nat) :
  (forall i, (i < n)%nat -> rejects N a (sim (qpe_circuit 12 8) i) = true) ->
  (forall fuel, (fuel <= n)%nat -> shor_qpe k sim fuel = (Unfinished, fuel)) /\
  (forall guesses,
     attempt N a (sim (qpe_circuit 12 8) n) true = Ok (guesses, false) ->
     forall fuel, (n < fuel)%nat -> shor_qpe k sim fuel = (Ok guesses, S n)).
Proof.
  intros Hrej. split.
  - intros fuel Hfuel. unfold shor_qpe.
    rewrite while_gcheck_rejecting; [reflexivity|].
    intros i Hi. apply Hrej. lia.
  - intros guesses Hacc fuel Hfuel. unfold shor_qpe.
    apply (while_gcheck_first_accept 15 7 12 (12 - 4) sim n 0%nat fuel guesses);
      assumption.
Qed.

Lemma shor_qpe_retries_until_accepted_witness :
  (forall i, (i < 1)%nat ->
     rejects N a (zero_then_quarter (qpe_circuit 12 8) i) = true) /\
  (forall fuel, (fuel <= 1)%nat ->
     shor_qpe 12 zero_then_quarter fuel = (Unfinished, fuel)) /\
  (forall guesses,
     attempt N a (zero_then_quarter (qpe_circuit 12 8) 1%nat) true
     = Ok (guesses, false) ->
     forall fuel, (1 < fuel)%nat ->
       shor_qpe 12 zero_then_quarter fuel = (Ok guesses, 2%nat)).
Proof.
  assert (H : forall i, (i < 1)%nat ->
                rejects N a (zero_then_quarter (qpe_circuit 12 8) i) = true).
  { intros i Hi. replace i with 0%nat by lia. vm_compute. reflexivity. }
  split; [exact H|].
  exact (shor_qpe_retries_until_accepted 12 zero_then_quarter 1 H).
Defined.

(** ** Acceptance of an attempt *)

Lemma nontrivial_spec (N' g : Z) :
  nontrivial N' g = true <-> g <> 1 /\ g <> N'.
Proof.
  unfold nontrivial. rewrite negb_true_iff, orb_false_iff.
  rewrite !Z.eqb_neq. tauto.
Qed.

Lemma existsb_nontrivial (N' : Z) (gs : list Z) :
  existsb (nontrivial N') gs = true <-> exists g, In g gs /\ g <> 1 /\ g <> N'.
Proof.
  rewrite existsb_exists. split; intros (g & Hin & Hg); exists g;
    (split; [assumption|]); apply nontrivial_spec; assumption.
Qed.

(** C2, as stated, does not hold: the parity of [r] is never tested.  The
    sample ["01010101"] (phase 85/256) gives the odd guess r = 3, and the
    attempt is accepted with guesses [[3, 1]]. *)
Lemma odd_period_guess_is_accepted :
  period_guess (bits "01010101") = Ok 3 /\ Z.odd 3 = true /\
  attempt N a (bits "01010101") true = Ok ([3; 1], false) /\
  shor_qpe 12 (constant_oracle (bits "01010101")) 1 = (Ok [3; 1], 1%nat).
Proof. repeat split; vm_compute; reflexivity. Qed.

(** C2, amended.  The guesses of an attempt are the gcds of
    [a^(r//2) - 1] and [a^(r//2) + 1] with [N], [r//2] rounding down; the
    attempt ends the loop exactly when one of them is outside [{1, N}],
    whatever the parity of [r]; with [r = 1] it never does. *)
Theorem attempt_accepts_iff_nontrivial_guess
  (init_phase : sample) (r : Z) (guesses : list Z) (gcheck : bool) :
  period_guess init_phase = Ok r ->
  attempt N a init_phase true = Ok (guesses, gcheck) ->
  guesses = [Z.gcd (a ^ (r / 2) - 1) N; Z.gcd (a ^ (r / 2) + 1) N] /\
  (gcheck = false <-> exists g, In g guesses /\ g <> 1 /\ g <> N) /\
  (r = 1 -> gcheck = true).
Proof.
  intros Hr Hatt.
  destruct (attempt_inv N a init_phase true guesses gcheck Hatt)
    as (r' & Hr' & _ & Hgs & Hg).
  assert (r' = r) by congruence. subst r'.
  split; [exact Hgs|]. split.
  - rewrite <- existsb_nontrivial, Hg.
    destruct (existsb (nontrivial N) guesses); cbn; split; congruence.
  - intros ->. rewrite Hg, Hgs. reflexivity.
Qed.

Lemma attempt_accepts_iff_nontrivial_guess_witness :
  period_guess (bits "01010101") = Ok 3 /\
  attempt N a (bits "01010101") true = Ok ([3; 1], false) /\
  [3; 1] = [Z.gcd (a ^ (3 / 2) - 1) N; Z.gcd (a ^ (3 / 2) + 1) N] /\
  (false = false <-> exists g, In g [3; 1] /\ g <> 1 /\ g <> N) /\
  (3 = 1 -> false = true).
Proof.
  assert (H1 : period_guess (bits "01010101") = Ok 3) by (vm_compute; reflexivity).
  assert (H2 : attempt N a (bits "01010101") true = Ok ([3; 1], false))
    by (vm_compute; reflexivity).
  split; [exact H1|]. split; [exact H2|].
  exact (attempt_accepts_iff_nontrivial_guess _ _ _ _ H1 H2).
Defined.

(** ** The returned guesses *)

Lemma gcd_with_N_divides (y : Z) : 0 < Z.gcd y N /\ (Z.gcd y N | N).
Proof.
  split; [|apply Z.gcd_divide_r].
  pose proof (Z.gcd_nonneg y N) as Hnn.
  destruct (Z.eq_dec (Z.gcd y N) 0) as [H0|H0]; [|lia].
  apply Z.gcd_eq_0_r in H0. discriminate.
Qed.

(** C10.  Every guess is a gcd with [N = 15]: it is a positive divisor of
    [N], so the test [(N % guess) == 0] of step 5 always succeeds and the
    loop over the guesses only asks whether a guess is outside [[1, N]]. *)
Theorem guesses_are_positive_divisors (r : Z) (guesses : list Z) :
  make_guesses N a r = Ok guesses ->
  (forall g, In g guesses -> 0 < g /\ (g | N) /\ pymod N g = Ok 0) /\
  (forall gcheck,
     for_guess N guesses gcheck
     = Ok (if existsb (nontrivial N) guesses then negb gcheck else gcheck)).
Proof.
  intros Hgs. apply make_guesses_inv in Hgs. subst guesses. split.
  - intros g Hin.
    assert (Hg : 0 < g /\ (g | N))
      by (destruct Hin as [<-|[<-|[]]]; apply gcd_with_N_divides).
    destruct Hg as [Hpos Hdiv]. split; [assumption|]. split; [assumption|].
    unfold pymod. replace (g =? 0) with false by (symmetry; apply Z.eqb_neq; lia).
    f_equal. apply Z.mod_divide; [lia | assumption].
  - intros gcheck. apply for_guess_divisors.
    repeat constructor; apply gcd_with_N_divides.
Qed.

Lemma guesses_are_positive_divisors_witness :
  make_guesses N a 4 = Ok [3; 5] /\
  (forall g, In g [3; 5] -> 0 < g /\ (g | N) /\ pymod N g = Ok 0) /\
  (forall gcheck,
     for_guess N [3; 5] gcheck
     = Ok (if existsb (nontrivial N) [3; 5] then negb gcheck else gcheck)).
Proof.
  assert (H : make_guesses N a 4 = Ok [3; 5]) by (vm_compute; reflexivity).
  split; [exact H | exact (guesses_are_positive_divisors 4 [3; 5] H)].
Defined.

(** C4.  When [shor_qpe] returns, every returned guess other than 1 and
    [N] is a proper divisor of [N], and the list holds such a guess. *)
Theorem returned_guesses_hold_a_factor
  (k : Z) (sim : oracle) (fuel : nat) (guesses : list Z) (calls : nat) :
  shor_qpe k sim fuel = (Ok guesses, calls) ->
  (forall g, In g guesses -> g <> 1 -> g <> N -> (g | N) /\ 1 < g < N) /\
  (exists g, In g guesses /\ g <> 1 /\ g <> N /\ (g | N)).
Proof.
  intros Hrun. unfold shor_qpe in Hrun.
  destruct (while_gcheck_returned _ _ _ _ _ _ _ _ _ Hrun)
    as (n & _ & _ & _ & Hatt).
  destruct (attempt_inv 15 7 _ true guesses false Hatt)
    as (r & _ & Hr & Hgs & Hg).
  assert (Hdiv : forall g, In g guesses -> 0 < g /\ (g | N)).
  { intros g Hin. rewrite Hgs in Hin.
    destruct Hin as [<-|[<-|[]]]; apply gcd_with_N_divides. }
  split.
  - intros g Hin H1 HN. destruct (Hdiv g Hin) as (Hpos & Hd).
    split; [assumption|].
    apply Z.divide_pos_le in Hd; [|reflexivity]. lia.
  - assert (Hex : existsb (nontrivial N) guesses = true).
    { fold N in Hg. destruct (existsb (nontrivial N) guesses);
        [reflexivity | discriminate]. }
    apply existsb_nontrivial in Hex as (g & Hin & H1 & HN).
    exists g. destruct (Hdiv g Hin) as (_ & Hd). auto.
Qed.

Lemma returned_guesses_hold_a_factor_witness :
  shor_qpe 12 (constant_oracle (bits "01000000")) 1 = (Ok [3; 5], 1%nat) /\
  (forall g, In g [3; 5] -> g <> 1 -> g <> N -> (g | N) /\ 1 < g < N) /\
  (exists g, In g [3; 5] /\ g <> 1 /\ g <> N /\ (g | N)).
Proof.
  assert (H : shor_qpe 12 (constant_oracle (bits "01000000")) 1
              = (Ok [3; 5], 1%nat)) by (vm_compute; reflexivity).
  split; [exact H | exact (returned_guesses_hold_a_factor _ _ _ _ _ H)].
Defined.

(** ** The scenario N = 15, a = 7, sample "0100" *)

(** C6.  The 4-bit sample ["0100"] is read as 4, the phase is 4/16 = 1/4,
    its closest fraction with denominator at most 15 is 1/4, so r = 4; the
    guesses are [gcd(7^2 - 1, 15) = 3] and [gcd(7^2 + 1, 15) = 5], and
    [shor_qpe] returns them on the attempt that measures this sample. *)
Theorem sample_0100_yields_3_and_5 :
  str (bits "0100") = "0100"%string /\
  int2 (bits "0100") = Ok 4 /\
  phase_final (bits "0100") = Ok (mkfloat 4 4) /\
  (Q_of_float (mkfloat 4 4) == 1 # 4)%Q /\
  Fractions.limit_denominator (Fractions.of_float (mkfloat 4 4)) 15
  = Ok (Fractions.mkFraction 1 4) /\
  period_guess (bits "0100") = Ok 4 /\
  make_guesses N a 4 = Ok [Z.gcd (7 ^ 2 - 1) 15; Z.gcd (7 ^ 2 + 1) 15] /\
  [Z.gcd (7 ^ 2 - 1) 15; Z.gcd (7 ^ 2 + 1) 15] = [3; 5] /\
  attempt N a (bits "0100") true = Ok ([3; 5], false) /\
  forall (k : Z) (rest : oracle) (fuel : nat),
    shor_qpe k (oracle_cons (bits "0100") rest) (S fuel) = (Ok [3; 5], 1%nat).
Proof.
  repeat (split; [vm_compute; reflexivity|]).
  intros k rest fuel. unfold shor_qpe. rewrite while_gcheck_S. reflexivity.
Qed.

(** ** Divisions that are exact *)

Lemma round_half_even_exact (v shift : Z) :
  0 < shift -> (2 ^ shift | v) ->
  Z.shiftl (round_half_even v shift) shift = v.
Proof.
  intros Hs [c Hc]. unfold round_half_even.
  assert (Hp : 0 < 2 ^ shift) by (apply Z.pow_pos_nonneg; lia).
  rewrite Z.shiftr_div_pow2 by lia.
  assert (Hq : v / 2 ^ shift = c) by (rewrite Hc; apply Z.div_mul; lia).
  rewrite Hq, !Z.shiftl_mul_pow2 by lia.
  replace (v - c * 2 ^ shift) with 0 by lia.
  assert (Hh : 0 < 1 * 2 ^ (shift - 1))
    by (rewrite Z.mul_1_l; apply Z.pow_pos_nonneg; lia).
  destruct (Z.ltb_spec 0 (1 * 2 ^ (shift - 1))); lia.
Qed.

Lemma bit_length_le (v len : Z) :
  0 <= v < 2 ^ len -> 0 <= len -> bit_length v <= len.
Proof.
  intros Hv Hlen. unfold bit_length.
  destruct (Z.eqb_spec v 0); [lia|].
  rewrite Z.abs_eq by lia.
  assert (Z.log2 v < len) by (apply Z.log2_lt_pow2; lia). lia.
Qed.

(** The division is exact when [v] needs no rounding. *)
Lemma truediv_pow2_exact (v len j : Z) :
  0 <= v < 2 ^ len -> (2 ^ j | v) ->
  0 <= j -> len - 53 <= j -> len - 1074 <= j ->
  truediv_pow2 v len = mkfloat v len.
Proof.
  intros Hv Hdiv Hj H53 H1074. unfold truediv_pow2.
  assert (Hlen : 0 <= len).
  { destruct (Z_lt_le_dec len 0) as [Hneg|]; [|assumption].
    rewrite Z.pow_neg_r in Hv by assumption. lia. }
  pose proof (bit_length_le v len Hv Hlen) as Hbl.
  set (shift := Z.max (Z.max (bit_length v - 53) (len - 1074)) 0).
  assert (Hshift : 0 <= shift <= j) by (unfold shift; lia).
  destruct (Z.eqb_spec shift 0) as [_|Hnz]; [reflexivity|].
  f_equal. apply round_half_even_exact; [lia|].
  apply Z.divide_trans with (2 ^ j); [|assumption].
  exists (2 ^ (j - shift)). rewrite <- Z.pow_add_r by lia. f_equal. lia.
Qed.

Lemma normalize_scale (n d g : Z) :
  0 < g -> 0 < d -> Z.gcd n d = 1 ->
  Fractions.normalize (n * g) (d * g) = Fractions.mkFraction n d.
Proof.
  intros Hg Hd Hgcd. unfold Fractions.normalize.
  rewrite Z.gcd_mul_mono_r_nonneg, Hgcd, Z.mul_1_l by lia.
  destruct (Z.ltb_spec (d * g) 0) as [Hneg|_]; [nia|].
  rewrite !Z.div_mul by lia. reflexivity.
Qed.

(** ** Dependence on the simulator and on the argument [k] *)

(** The loop only looks at the samples the simulator gives for its own
    circuit. *)
Lemma while_gcheck_ext (N' a' k m : Z) (sim1 sim2 : oracle) :
  (forall i, sim1 (qpe_circuit k m) i = sim2 (qpe_circuit k m) i) ->
  forall fuel calls,
    while_gcheck fuel N' a' k m sim1 calls
    = while_gcheck fuel N' a' k m sim2 calls.
Proof.
  intros Hsim. induction fuel as [|fuel IH]; intros calls; [reflexivity|].
  rewrite !while_gcheck_S, Hsim.
  destruct (attempt N' a' (sim2 (qpe_circuit k m) calls) true)
    as [[gs [|]]| |]; try reflexivity. apply IH.
Qed.

(** C8.  Two runs of [shor_qpe] in which the simulator returns the same
    samples return the same guesses after the same number of attempts. *)
Theorem shor_qpe_deterministic
  (k : Z) (sim1 sim2 : oracle) (fuel1 fuel2 : nat)
  (guesses1 guesses2 : list Z) (calls1 calls2 : nat) :
  (forall qcirc i, sim1 qcirc i = sim2 qcirc i) ->
  shor_qpe k sim1 fuel1 = (Ok guesses1, calls1) ->
  shor_qpe k sim2 fuel2 = (Ok guesses2, calls2) ->
  guesses1 = guesses2 /\ calls1 = calls2.
Proof.
  intros Hsim Hrun1 Hrun2. unfold shor_qpe in Hrun1, Hrun2.
  destruct (while_gcheck_returned _ _ _ _ _ _ _ _ _ Hrun1)
    as (n1 & Hc1 & _ & Hrej1 & Hacc1).
  destruct (while_gcheck_returned _ _ _ _ _ _ _ _ _ Hrun2)
    as (n2 & Hc2 & _ & Hrej2 & Hacc2).
  cbn [Nat.add] in *.
  assert (Hn : n1 = n2).
  { destruct (Nat.lt_trichotomy n1 n2) as [Hlt|[Heq|Hgt]]; [|exact Heq|]; exfalso.
    - specialize (Hrej2 n1 Hlt). rewrite <- Hsim in Hrej2.
      apply rejects_spec in Hrej2 as [gs Hrej2]. congruence.
    - specialize (Hrej1 n2 Hgt). rewrite Hsim in Hrej1.
      apply rejects_spec in Hrej1 as [gs Hrej1]. congruence. }
  subst n2. rewrite Hsim in Hacc1. split; congruence.
Qed.

Lemma shor_qpe_deterministic_witness :
  (forall qcirc i,
     constant_oracle (bits "01000000") qcirc i
     = oracle_cons (bits "01000000") (constant_oracle (bits "01000000")) qcirc i) /\
  shor_qpe 12 (constant_oracle (bits "01000000")) 1 = (Ok [3; 5], 1%nat) /\
  shor_qpe 12 (oracle_cons (bits "01000000") (constant_oracle (bits "01000000"))) 3
  = (Ok [3; 5], 1%nat) /\
  [3; 5] = [3; 5] /\ 1%nat = 1%nat.
Proof.
  assert (H0 : forall qcirc i,
             constant_oracle (bits "01000000") qcirc i
             = oracle_cons (bits "01000000")
                 (constant_oracle (bits "01000000")) qcirc i)
    by (intros qcirc [|i]; reflexivity).
  assert (H1 : shor_qpe 12 (constant_oracle (bits "01000000")) 1
               = (Ok [3; 5], 1%nat)) by (vm_compute; reflexivity).
  assert (H2 : shor_qpe 12
                 (oracle_cons (bits "01000000")
                    (constant_oracle (bits "01000000"))) 3
               = (Ok [3; 5], 1%nat)) by (vm_compute; reflexivity).
  repeat (split; [assumption|]).
  exact (shor_qpe_deterministic _ _ _ _ _ _ _ _ _ H0 H1 H2).
Defined.

(** C9.  The argument [k] of [shor_qpe] is overwritten: for any two values
    of it and simulators that agree on the circuit built from k = 12 and
    m = 8, the runs are the same, namely the loop with N = 15 and a = 7 on
    that circuit. *)
Theorem shor_qpe_ignores_its_argument
  (k1 k2 : Z) (sim1 sim2 : oracle) (fuel : nat) :
  (forall i, sim1 (qpe_circuit 12 8) i = sim2 (qpe_circuit 12 8) i) ->
  shor_qpe k1 sim1 fuel = shor_qpe k2 sim2 fuel /\
  shor_qpe k1 sim1 fuel = while_gcheck fuel 15 7 12 8 sim1 0.
Proof.
  intros Hsim. split; [|reflexivity].
  unfold shor_qpe. apply while_gcheck_ext. exact Hsim.
Qed.

Lemma shor_qpe_ignores_its_argument_witness :
  (forall i, constant_oracle (bits "00000000") (qpe_circuit 12 8) i
             = twelve_qubit_oracle (qpe_circuit 12 8) i) /\
  shor_qpe 3 (constant_oracle (bits "00000000")) 2
  = shor_qpe 20 twelve_qubit_oracle 2 /\
  shor_qpe 3 (constant_oracle (bits "00000000")) 2
  = while_gcheck 2 15 7 12 8 (constant_oracle (bits "00000000")) 0.
Proof.
  assert (H : forall i, constant_oracle (bits "00000000") (qpe_circuit 12 8) i
                        = twelve_qubit_oracle (qpe_circuit 12 8) i)
    by (intros i; reflexivity).
  split; [exact H|].
  exact (shor_qpe_ignores_its_argument 3 20 _ _ 2 H).
Defined.

(** * Further properties of the notebook *)

(** ** Finite checks over a range *)

Lemma In_range (lo hi y : Z) : lo <= y < hi -> In y (range lo hi).
Proof.
  intros Hy. unfold range. apply in_map_iff.
  exists (Z.to_nat (y - lo)). split; [lia|].
  apply in_seq. lia.
Qed.

Lemma forallb_range (P : Z -> bool) (lo hi : Z) :
  forallb P (range lo hi) = true ->
  forall y, lo <= y < hi -> P y = true.
Proof.
  intros Hall y Hy. rewrite forallb_forall in Hall.
  apply Hall, In_range, Hy.
Qed.

(** ** The gate [U] *)

Lemma U_table (y : Z) :
  0 <= y < 16 ->
  UGate.run UGate.U y
  = if y =? 0 then 15 else if y =? 15 then 0 else 7 * y mod 15.
Proof.
  intros Hy.
  apply Z.eqb_eq.
  apply (forallb_range
           (fun y => UGate.run UGate.U y
                     =? (if y =? 0 then 15 else if y =? 15 then 0
                         else 7 * y mod 15)) 0 16);
    [vm_compute; reflexivity | exact Hy].
Qed.

Lemma U_units (y : Z) :
  1 <= y <= 14 ->
  UGate.run UGate.U y = 7 * y mod 15 /\ 1 <= 7 * y mod 15 <= 14.
Proof.
  intros Hy. rewrite U_table by lia.
  destruct (Z.eqb_spec y 0); [lia|]. destruct (Z.eqb_spec y 15); [lia|].
  split; [reflexivity|].
  pose proof (Z.mod_pos_bound (7 * y) 15 ltac:(lia)) as Hb.
  destruct (Z.eq_dec (7 * y mod 15) 0) as [H0|H0]; [|lia].
  apply Z.mod_divide in H0; [|lia]. destruct H0 as [q Hq]. lia.
Qed.

(** X1.  On the basis states 1..14 of its four qubits the gate [U] built
    from four [x] and three [swap] is the multiplication by 7 modulo 15;
    it exchanges the two remaining states, 0 and 15. *)
Theorem U_multiplies_by_7_modulo_15 (y : Z) :
  0 <= y < 16 ->
  UGate.run UGate.U y
  = if y =? 0 then 15 else if y =? 15 then 0 else 7 * y mod 15.
Proof.
  intros Hy. apply Z.eqb_eq.
  pose (check := fun y =>
          UGate.run UGate.U y
          =? (if y =? 0 then 15 else if y =? 15 then 0 else 7 * y mod 15)).
  change (check y = true).
  apply (forallb_range check 0 16); [|exact Hy].
  vm_compute. reflexivity.
Qed.

Lemma U_multiplies_by_7_modulo_15_witness :
  0 <= 8 < 16 /\ UGate.run UGate.U 8 = 11.
Proof.
  assert (H : 0 <= 8 < 16) by lia.
  split; [exact H | exact (U_multiplies_by_7_modulo_15 8 H)].
Defined.

Lemma iter_S {A : Type} (n : nat) (f : A -> A) (x : A) :
  Nat.iter (S n) f x = f (Nat.iter n f x).
Proof. reflexivity. Qed.

Lemma iter_U_units (n : nat) (y : Z) :
  1 <= y <= 14 ->
  Nat.iter n (UGate.run UGate.U) y = 7 ^ Z.of_nat n * y mod 15 /\
  1 <= 7 ^ Z.of_nat n * y mod 15 <= 14.
Proof.
  intros Hy. induction n as [|n [IH Hb]].
  - change (Nat.iter 0 (UGate.run UGate.U) y) with y.
    change (7 ^ Z.of_nat 0) with 1.
    rewrite Z.mul_1_l, Z.mod_small by lia. lia.
  - rewrite iter_S, IH.
    destruct (U_units _ Hb) as [HU HUb]. rewrite HU.
    assert (Heq : 7 * (7 ^ Z.of_nat n * y mod 15) mod 15
                  = 7 ^ Z.of_nat (S n) * y mod 15).
    { rewrite Z.mul_mod_idemp_r by lia.
      rewrite Nat2Z.inj_succ, Z.pow_succ_r by lia. f_equal. ring. }
    rewrite <- Heq. split; [reflexivity | exact HUb].
Qed.

Lemma iter_U_four (n : nat) (y : Z) :
  0 <= y < 16 -> Nat.iter (4 * n) (UGate.run UGate.U) y = y.
Proof.
  intros Hy. induction n as [|n IH]; [reflexivity|].
  replace (4 * S n)%nat with (4 + 4 * n)%nat by lia.
  rewrite Nat.iter_add, IH.
  apply Z.eqb_eq.
  apply (forallb_range
           (fun y => Nat.iter 4 (UGate.run UGate.U) y =? y) 0 16);
    [vm_compute; reflexivity | exact Hy].
Qed.

(** ** The controlled powers [cU_multi(k)] *)

Lemma run_app (g1 g2 : list UGate.gate) (s : Z) :
  UGate.run (g1 ++ g2) s = UGate.run g2 (UGate.run g1 s).
Proof. unfold UGate.run. apply fold_left_app. Qed.

Lemma append_U (circ : list UGate.gate) :
  UGate.append circ UGate.U (range 0 4) = circ ++ UGate.U.
Proof. reflexivity. Qed.

Lemma repeated_U (n : nat) :
  let circ :=
    Nat.iter n (fun circ => UGate.append circ UGate.U (range 0 4)) [] in
  List.length circ = (7 * n)%nat /\
  forall y, UGate.run circ y = Nat.iter n (UGate.run UGate.U) y.
Proof.
  cbv zeta. induction n as [|n [IHl IHr]]; [split; reflexivity|].
  rewrite iter_S, append_U. split.
  - rewrite length_app, IHl. change (List.length UGate.U) with 7%nat. lia.
  - intros y. rewrite run_app, IHr, iter_S. reflexivity.
Qed.

Lemma cU_multi_ok (k : Z) :
  0 <= k ->
  UGate.cU_multi k
  = Ok (UGate.mkControlled 1
          (Nat.iter (Z.to_nat (2 ^ k))
             (fun circ => UGate.append circ UGate.U (range 0 4)) [])).
Proof.
  intros Hk. unfold UGate.cU_multi.
  destruct (Z.ltb_spec k 0); [lia | reflexivity].
Qed.

(** X2.  For [k >= 0], [cU_multi(k)] is a gate with one control qubit
    whose base gate holds [7 * 2^k] elementary gates and multiplies the
    basis states 1..14 by [7^(2^k)] modulo 15. *)
Theorem cU_multi_multiplies_by_power (k y : Z) :
  0 <= k -> 1 <= y <= 14 ->
  exists g,
    UGate.cU_multi k = Ok g /\ UGate.num_ctrl_qubits g = 1 /\
    Z.of_nat (List.length (UGate.base_gate g)) = 7 * 2 ^ k /\
    UGate.run (UGate.base_gate g) y = 7 ^ (2 ^ k) * y mod 15.
Proof.
  intros Hk Hy. eexists. split; [apply cU_multi_ok; assumption|].
  cbn [UGate.num_ctrl_qubits UGate.base_gate].
  destruct (repeated_U (Z.to_nat (2 ^ k))) as [Hlen Hrun].
  assert (Hp : 0 < 2 ^ k) by (apply Z.pow_pos_nonneg; lia).
  split; [reflexivity|]. split.
  - rewrite Hlen. lia.
  - rewrite Hrun. destruct (iter_U_units (Z.to_nat (2 ^ k)) y Hy) as [-> _].
    rewrite Z2Nat.id by lia. reflexivity.
Qed.

Lemma cU_multi_multiplies_by_power_witness :
  0 <= 1 /\ 1 <= 8 <= 14 /\
  exists g,
    UGate.cU_multi 1 = Ok g /\ UGate.num_ctrl_qubits g = 1 /\
    Z.of_nat (List.length (UGate.base_gate g)) = 7 * 2 ^ 1 /\
    UGate.run (UGate.base_gate g) 8 = 7 ^ (2 ^ 1) * 8 mod 15.
Proof.
  assert (H1 : 0 <= 1) by lia. assert (H2 : 1 <= 8 <= 14) by lia.
  split; [exact H1|]. split; [exact H2|].
  exact (cU_multi_multiplies_by_power 1 8 H1 H2).
Defined.

(** X3.  From [k = 2] on, the base gate of [cU_multi(k)] leaves every
    basis state of the four qubits unchanged: [U] has order 4. *)
Theorem cU_multi_is_identity_from_2 (k y : Z) :
  2 <= k -> 0 <= y < 16 ->
  exists g,
    UGate.cU_multi k = Ok g /\ UGate.run (UGate.base_gate g) y = y.
Proof.
  intros Hk Hy. eexists. split; [apply cU_multi_ok; lia|].
  cbn [UGate.base_gate].
  destruct (repeated_U (Z.to_nat (2 ^ k))) as [_ Hrun]. rewrite Hrun.
  assert (Hp : 0 < 2 ^ (k - 2)) by (apply Z.pow_pos_nonneg; lia).
  replace (Z.to_nat (2 ^ k)) with (4 * Z.to_nat (2 ^ (k - 2)))%nat.
  - apply iter_U_four. exact Hy.
  - replace k with (2 + (k - 2)) at 2 by lia.
    rewrite Z.pow_add_r by lia. change (2 ^ 2) with 4. lia.
Qed.

Lemma cU_multi_is_identity_from_2_witness :
  2 <= 5 /\ 0 <= 11 < 16 /\
  exists g,
    UGate.cU_multi 5 = Ok g /\ UGate.run (UGate.base_gate g) 11 = 11.
Proof.
  assert (H1 : 2 <= 5) by lia. assert (H2 : 0 <= 11 < 16) by lia.
  split; [exact H1|]. split; [exact H2|].
  exact (cU_multi_is_identity_from_2 5 11 H1 H2).
Defined.

(** ** The controlled gates of the phase-estimation circuit *)

Lemma ok_eqb (r : result Z) (v : Z) :
  match r with Ok s => s =? v | _ => false end = true -> r = Ok v.
Proof.
  destruct r as [s| |]; try discriminate.
  intros H. apply Z.eqb_eq in H. congruence.
Qed.

(** X4.  In the circuit of [shor_qpe], [x(11)] followed by the eight gates
    [cU_multi(i)] controlled by the counting qubits maps the basis state
    with counting value [c] and system register 0 to the state with the
    same [c] and system register [8 * 7^c mod 15], which runs through
    8, 11, 2, 14 with period 4. *)
Theorem qpe_circuit_modular_exponentiation (c : Z) :
  0 <= c < 2 ^ 8 ->
  run_actions (basis_actions (data (qpe_circuit 12 8))) c
  = Ok (c + 2 ^ 8 * (8 * 7 ^ c mod 15)) /\
  8 * 7 ^ c mod 15 = nth (Z.to_nat (c mod 4)) [8; 11; 2; 14] 0.
Proof.
  intros Hc. split.
  - apply ok_eqb.
    apply (forallb_range
             (fun c =>
                match run_actions (basis_actions (data (qpe_circuit 12 8))) c
                with
                | Ok s => s =? c + 2 ^ 8 * (8 * 7 ^ c mod 15)
                | _ => false
                end) 0 (2 ^ 8));
      [vm_compute; reflexivity | exact Hc].
  - apply Z.eqb_eq.
    apply (forallb_range
             (fun c => 8 * 7 ^ c mod 15
                       =? nth (Z.to_nat (c mod 4)) [8; 11; 2; 14] 0)
             0 (2 ^ 8));
      [vm_compute; reflexivity | exact Hc].
Qed.

Lemma qpe_circuit_modular_exponentiation_witness :
  0 <= 3 < 2 ^ 8 /\
  run_actions (basis_actions (data (qpe_circuit 12 8))) 3
  = Ok (3 + 2 ^ 8 * (8 * 7 ^ 3 mod 15)) /\
  8 * 7 ^ 3 mod 15 = nth (Z.to_nat (3 mod 4)) [8; 11; 2; 14] 0.
Proof.
  assert (H : 0 <= 3 < 2 ^ 8) by lia.
  split; [exact H | exact (qpe_circuit_modular_exponentiation 3 H)].
Defined.

(** ** Exceptions of an attempt *)

(** X5.  Whatever [N] and [a] are, an attempt raises only on an empty
    sample, where [int('', 2)] raises [ValueError]; on any other sample it
    produces two guesses.  In particular [N % guess] never divides by
    zero, also with [N = 0]. *)
Theorem attempt_raises_only_on_empty_sample
  (N' a' : Z) (init_phase : sample) (gcheck : bool) :
  (init_phase = [] /\ attempt N' a' init_phase gcheck = Raise ValueError) \/
  (init_phase <> [] /\
   exists guesses gcheck',
     attempt N' a' init_phase gcheck = Ok (guesses, gcheck') /\
     List.length guesses = 2%nat).
Proof.
  destruct init_phase as [|b s]; [left; split; reflexivity|].
  right. split; [discriminate|].
  destruct (attempt_ok N' a' (b :: s) gcheck ltac:(discriminate))
    as (gs & g' & Hatt).
  exists gs, g'. split; [exact Hatt|].
  destruct (attempt_inv _ _ _ _ _ _ Hatt) as (r & _ & _ & -> & _).
  reflexivity.
Qed.

(** ** Which period guesses end the loop *)

Lemma attempt_of_guess (s : sample) (r : Z) :
  period_guess s = Ok r ->
  1 <= r <= 15 /\
  attempt N a s true
  = Ok ([Z.gcd (a ^ (r / 2) - 1) N; Z.gcd (a ^ (r / 2) + 1) N],
        negb (existsb (nontrivial N)
                [Z.gcd (a ^ (r / 2) - 1) N; Z.gcd (a ^ (r / 2) + 1) N])).
Proof.
  intros Hr. pose proof (period_guess_range s r Hr) as Hb.
  split; [exact Hb|].
  destruct (attempt_ok N a s true (period_guess_nonempty s r Hr))
    as (gs & g' & Hatt).
  destruct (attempt_inv _ _ _ _ _ _ Hatt) as (r' & Hr' & _ & Hgs & Hg).
  assert (r' = r) by congruence. subst r'.
  rewrite Hatt, Hg, Hgs.
  destruct (existsb _ _); reflexivity.
Qed.

Lemma guess_cases (r : Z) :
  1 <= r <= 15 ->
  r = 1 \/ r = 2 \/ r = 3 \/ r = 4 \/ r = 5 \/ r = 6 \/ r = 7 \/ r = 8 \/
  r = 9 \/ r = 10 \/ r = 11 \/ r = 12 \/ r = 13 \/ r = 14 \/ r = 15.
Proof. lia. Qed.

(** X6.  With [N = 15] and [a = 7], an attempt is rejected, and the loop
    goes on, exactly when the period guess is 1, 8 or 9; every other
    guess from 2 to 15, odd or even, ends the loop. *)
Theorem rejected_period_guesses (init_phase : sample) (r : Z) :
  period_guess init_phase = Ok r ->
  (rejects N a init_phase = true <-> r = 1 \/ r = 8 \/ r = 9).
Proof.
  intros Hr. destruct (attempt_of_guess init_phase r Hr) as [Hb Hatt].
  unfold rejects. rewrite Hatt.
  destruct (guess_cases r Hb)
    as [-> | [-> | [-> | [-> | [-> | [-> | [-> | [-> | [-> | [-> | [-> |
        [-> | [-> | [-> | ->]]]]]]]]]]]]]];
    vm_compute; split; intros H; try discriminate H; try tauto;
    repeat (destruct H as [H|H]; try discriminate H).
Qed.

Lemma rejected_period_guesses_witness :
  period_guess (bits "10000000") = Ok 2 /\
  (rejects N a (bits "10000000") = true <-> 2 = 1 \/ 2 = 8 \/ 2 = 9).
Proof.
  assert (H : period_guess (bits "10000000") = Ok 2)
    by (vm_compute; reflexivity).
  split; [exact H | exact (rejected_period_guesses _ _ H)].
Defined.

(** X7.  [shor_qpe] can only return [[3, 5]] or [[3, 1]]: both factors
    when the accepted period guess is 4, 5, 12 or 13, and the factor 3
    alone for every other accepted guess. *)
Theorem shor_qpe_returns_3_5_or_3_1
  (k : Z) (sim : oracle) (fuel : nat) (guesses : list Z) (calls : nat) :
  shor_qpe k sim fuel = (Ok guesses, calls) ->
  exists r,
    period_guess (sim (qpe_circuit 12 8) (Nat.pred calls)) = Ok r /\
    (((r = 4 \/ r = 5 \/ r = 12 \/ r = 13) /\ guesses = [3; 5]) \/
     ((r = 2 \/ r = 3 \/ r = 6 \/ r = 7 \/ r = 10 \/ r = 11 \/ r = 14
       \/ r = 15) /\ guesses = [3; 1])).
Proof.
  intros Hrun. unfold shor_qpe in Hrun.
  destruct (while_gcheck_returned _ _ _ _ _ _ _ _ _ Hrun)
    as (n & -> & _ & _ & Hatt).
  cbn [Nat.add Nat.pred] in *.
  destruct (attempt_inv _ _ _ _ _ _ Hatt) as (r & Hr & Hb & Hgs & Hg).
  exists r. split; [exact Hr|]. subst guesses.
  destruct (guess_cases r Hb)
    as [-> | [-> | [-> | [-> | [-> | [-> | [-> | [-> | [-> | [-> | [-> |
        [-> | [-> | [-> | ->]]]]]]]]]]]]]];
    vm_compute in Hg; try discriminate Hg;
    (left; split; [lia | reflexivity]) || (right; split; [lia | reflexivity]).
Qed.

Lemma shor_qpe_returns_3_5_or_3_1_witness :
  shor_qpe 12 zero_then_quarter 5 = (Ok [3; 5], 2%nat) /\
  exists r,
    period_guess (zero_then_quarter (qpe_circuit 12 8) (Nat.pred 2)) = Ok r /\
    (((r = 4 \/ r = 5 \/ r = 12 \/ r = 13) /\ [3; 5] = [3; 5]) \/
     ((r = 2 \/ r = 3 \/ r = 6 \/ r = 7 \/ r = 10 \/ r = 11 \/ r = 14
       \/ r = 15) /\ [3; 5] = [3; 1])).
Proof.
  assert (H : shor_qpe 12 zero_then_quarter 5 = (Ok [3; 5], 2%nat))
    by (vm_compute; reflexivity).
  split; [exact H | exact (shor_qpe_returns_3_5_or_3_1 _ _ _ _ _ H)].
Defined.

(** ** Samples the loop never reads *)

(** X8.  A run that returns after [calls] attempts depends on the first
    [calls] samples only: on any simulator that agrees with it on those,
    and with any larger number of iterations allowed, [shor_qpe] returns
    the same guesses after the same number of attempts. *)
Theorem shor_qpe_reads_only_the_consumed_samples
  (k1 k2 : Z) (sim1 sim2 : oracle) (fuel1 fuel2 : nat)
  (guesses : list Z) (calls : nat) :
  shor_qpe k1 sim1 fuel1 = (Ok guesses, calls) ->
  (forall i, (i < calls)%nat ->
     sim1 (qpe_circuit 12 8) i = sim2 (qpe_circuit 12 8) i) ->
  (calls <= fuel2)%nat ->
  shor_qpe k2 sim2 fuel2 = (Ok guesses, calls).
Proof.
  intros Hrun Hsim Hfuel. unfold shor_qpe in *.
  destruct (while_gcheck_returned _ _ _ _ _ _ _ _ _ Hrun)
    as (n & -> & _ & Hrej & Hatt).
  cbn [Nat.add] in *.
  apply (while_gcheck_first_accept 15 7 12 (12 - 4) sim2 n 0%nat fuel2 guesses).
  - intros i Hi. cbn [Nat.add]. change (12 - 4) with 8.
    rewrite <- Hsim by lia. apply Hrej. exact Hi.
  - cbn [Nat.add]. change (12 - 4) with 8. rewrite <- Hsim by lia. exact Hatt.
  - lia.
Qed.

Lemma shor_qpe_reads_only_the_consumed_samples_witness :
  shor_qpe 3 (constant_oracle (bits "01000000")) 1 = (Ok [3; 5], 1%nat) /\
  (forall i, (i < 1)%nat ->
     constant_oracle (bits "01000000") (qpe_circuit 12 8) i
     = oracle_cons (bits "01000000") (constant_oracle []) (qpe_circuit 12 8) i) /\
  (1 <= 4)%nat /\
  shor_qpe 20 (oracle_cons (bits "01000000") (constant_oracle [])) 4
  = (Ok [3; 5], 1%nat).
Proof.
  assert (H1 : shor_qpe 3 (constant_oracle (bits "01000000")) 1
               = (Ok [3; 5], 1%nat)) by (vm_compute; reflexivity).
  assert (H2 : forall i, (i < 1)%nat ->
             constant_oracle (bits "01000000") (qpe_circuit 12 8) i
             = oracle_cons (bits "01000000") (constant_oracle [])
                 (qpe_circuit 12 8) i).
  { intros i Hi. replace i with 0%nat by lia. reflexivity. }
  assert (H3 : (1 <= 4)%nat) by lia.
  repeat (split; [assumption|]).
  exact (shor_qpe_reads_only_the_consumed_samples 3 20 _ _ 1 4 _ _ H1 H2 H3).
Defined.

(** ** The phase as a float *)

Lemma round_half_even_bounds (v shift : Z) :
  0 <= v -> 0 < shift ->
  v / 2 ^ shift <= round_half_even v shift <= v / 2 ^ shift + 1 /\
  Z.abs (round_half_even v shift * 2 ^ shift - v) * 2 <= 2 ^ shift.
Proof.
  intros Hv Hs. unfold round_half_even.
  assert (Hp : 0 < 2 ^ shift) by (apply Z.pow_pos_nonneg; lia).
  assert (Hhalf : 2 ^ shift = 2 * 2 ^ (shift - 1)).
  { replace shift with (1 + (shift - 1)) at 1 by lia.
    rewrite Z.pow_add_r by lia. reflexivity. }
  rewrite Z.shiftr_div_pow2, !Z.shiftl_mul_pow2, Z.mul_1_l by lia.
  set (q := v / 2 ^ shift).
  pose proof (Z.mod_pos_bound v (2 ^ shift) Hp) as Hrem.
  assert (Hmod : v - q * 2 ^ shift = v mod 2 ^ shift)
    by (unfold q; rewrite Z.mod_eq by lia; ring).
  rewrite Hmod. set (rem := v mod 2 ^ shift) in *.
  assert (Hv' : v = q * 2 ^ shift + rem) by lia.
  destruct (Z.ltb_spec rem (2 ^ (shift - 1))) as [H1|H1]; [split; lia|].
  destruct (Z.ltb_spec (2 ^ (shift - 1)) rem) as [H2|H2]; [split; lia|].
  destruct (Z.even q); split; lia.
Qed.

(** The float [v / 2**len]: its significand stays within [0, 2**len] and
    within [2**len / 2**54] of [v], and is [v] itself when [len <= 53]. *)
Lemma truediv_pow2_bounds (v len : Z) :
  0 <= v < 2 ^ len ->
  0 <= significand (truediv_pow2 v len) <= 2 ^ len /\
  Z.abs (significand (truediv_pow2 v len) - v) * 2 ^ 54 <= 2 ^ len /\
  (len <= 53 -> truediv_pow2 v len = mkfloat v len).
Proof.
  intros Hv.
  assert (Hlen : 0 <= len).
  { destruct (Z_lt_le_dec len 0) as [Hneg|]; [|assumption].
    rewrite Z.pow_neg_r in Hv by assumption. lia. }
  pose proof (bit_length_le v len Hv Hlen) as Hbl.
  assert (Hp54 : 0 < 2 ^ 54) by reflexivity.
  unfold truediv_pow2.
  set (shift := Z.max (Z.max (bit_length v - 53) (len - 1074)) 0).
  destruct (Z.eqb_spec shift 0) as [H0|Hnz]; cbn [significand].
  - replace (v - v) with 0 by ring. cbn [Z.abs Z.mul]. repeat split; try lia.
  - assert (Hs : 0 < shift <= len - 53) by (unfold shift in *; lia).
    destruct (round_half_even_bounds v shift (proj1 Hv) (proj1 Hs))
      as [[Hlo Hhi] Herr].
    rewrite Z.shiftl_mul_pow2 by lia.
    set (r := round_half_even v shift) in *.
    assert (Hp : 0 < 2 ^ shift) by (apply Z.pow_pos_nonneg; lia).
    assert (Hsplit : 2 ^ len = 2 ^ (len - shift) * 2 ^ shift)
      by (rewrite <- Z.pow_add_r by lia; f_equal; lia).
    assert (Hq : v / 2 ^ shift < 2 ^ (len - shift))
      by (apply Z.div_lt_upper_bound; lia).
    assert (Hq0 : 0 <= v / 2 ^ shift) by (apply Z.div_pos; lia).
    assert (Hbig : 2 ^ shift * 2 ^ 53 <= 2 ^ len).
    { rewrite <- Z.pow_add_r by lia. apply Z.pow_le_mono_r; lia. }
    repeat split; try nia; try lia.
Qed.

(** X9.  For a sample of at most 53 bits, as the 8-bit samples of the
    simulator are, [converted_phase / 2**lenth] involves no rounding: the
    phase is exactly [v / 2^len] and lies in [[0, 1)]. *)
Theorem phase_is_exact_up_to_53_bits (init_phase : sample) (v : Z) :
  int2 init_phase = Ok v ->
  (List.length init_phase <= 53)%nat ->
  phase_final init_phase = Ok (mkfloat v (Z.of_nat (List.length init_phase))) /\
  (0 <= Q_of_float (mkfloat v (Z.of_nat (List.length init_phase))) < 1)%Q.
Proof.
  intros Hv Hlen.
  assert (Hs : init_phase <> []) by (intros ->; discriminate).
  destruct (int2_value init_phase Hs) as (v' & Hv' & Hb).
  assert (v' = v) by congruence. subst v'.
  destruct (truediv_pow2_bounds v _ Hb) as (_ & _ & Hexact).
  unfold phase_final. rewrite Hv. cbn [bind]. rewrite Hexact by lia.
  split; [reflexivity|].
  assert (Hp : 0 < 2 ^ Z.of_nat (List.length init_phase))
    by (apply Z.pow_pos_nonneg; lia).
  unfold Q_of_float, Qle, Qlt; cbn [significand scale Qnum Qden].
  rewrite Z2Pos.id by assumption. lia.
Qed.

Lemma phase_is_exact_up_to_53_bits_witness :
  int2 (bits "01010101") = Ok 85 /\
  (List.length (bits "01010101") <= 53)%nat /\
  phase_final (bits "01010101")
  = Ok (mkfloat 85 (Z.of_nat (List.length (bits "01010101")))) /\
  (0 <= Q_of_float (mkfloat 85 (Z.of_nat (List.length (bits "01010101"))))
   < 1)%Q.
Proof.
  assert (H1 : int2 (bits "01010101") = Ok 85) by (vm_compute; reflexivity).
  assert (H2 : (List.length (bits "01010101") <= 53)%nat) by (vm_compute; lia).
  split; [exact H1|]. split; [exact H2|].
  exact (phase_is_exact_up_to_53_bits _ _ H1 H2).
Defined.

(** X10.  For a sample of any length the phase is a float in [[0, 1]]
    that differs from [v / 2^len] by at most [2^-54]; the value 1 is
    reached by rounding. *)
Theorem phase_is_within_rounding_of_the_sample
  (init_phase : sample) (v : Z) (ph : float) :
  int2 init_phase = Ok v ->
  phase_final init_phase = Ok ph ->
  (0 <= Q_of_float ph <= 1)%Q /\
  (Qabs (Q_of_float ph
         - (v # Z.to_pos (2 ^ Z.of_nat (List.length init_phase))))
   <= 1 # Z.to_pos (2 ^ 54))%Q.
Proof.
  intros Hv Hph.
  assert (Hs : init_phase <> []) by (intros ->; discriminate).
  destruct (int2_value init_phase Hs) as (v' & Hv' & Hb).
  assert (v' = v) by congruence. subst v'.
  unfold phase_final in Hph. rewrite Hv in Hph. cbn [bind] in Hph.
  injection Hph as <-.
  set (len := Z.of_nat (List.length init_phase)) in *.
  destruct (truediv_pow2_bounds v len Hb) as (Hsig & Herr & _).
  assert (Hp : 0 < 2 ^ len) by (apply Z.pow_pos_nonneg; lia).
  unfold Q_of_float. rewrite truediv_pow2_scale.
  set (sig := significand (truediv_pow2 v len)) in *.
  unfold Qle, Qabs, Qminus, Qplus, Qopp; cbn [Qnum Qden].
  rewrite !Pos2Z.inj_mul, !Z2Pos.id by (assumption || reflexivity).
  replace (sig * 2 ^ len + - v * 2 ^ len) with ((sig - v) * 2 ^ len) by ring.
  rewrite Z.abs_mul, (Z.abs_eq (2 ^ len)) by lia.
  repeat split; try lia. nia.
Qed.

Lemma phase_is_within_rounding_of_the_sample_witness :
  int2 (repeat true 60) = Ok (2 ^ 60 - 1) /\
  phase_final (repeat true 60) = Ok (mkfloat (2 ^ 60) 60) /\
  (0 <= Q_of_float (mkfloat (2 ^ 60) 60) <= 1)%Q /\
  (Qabs (Q_of_float (mkfloat (2 ^ 60) 60)
         - (2 ^ 60 - 1 # Z.to_pos (2 ^ Z.of_nat (List.length (repeat true 60)))))
   <= 1 # Z.to_pos (2 ^ 54))%Q.
Proof.
  assert (H1 : int2 (repeat true 60) = Ok (2 ^ 60 - 1))
    by (vm_compute; reflexivity).
  assert (H2 : phase_final (repeat true 60) = Ok (mkfloat (2 ^ 60) 60))
    by (vm_compute; reflexivity).
  split; [exact H1|]. split; [exact H2|].
  exact (phase_is_within_rounding_of_the_sample (repeat true 60) _ _ H1 H2).
Defined.

(** ** [limit_denominator] on arbitrary fractions and bounds *)

(** X11.  For every fraction [x] in lowest terms and every bound
    [M >= 1], [x.limit_denominator(M)] raises nothing and returns a
    fraction in lowest terms with a denominator in [1..M] that is at
    least as close to [x] as every [p'/q'] with [q' <= M]; a fraction as
    close has a denominator at least as large. *)
Theorem limit_denominator_returns_closest_fraction
  (x : Fractions.Fraction) (M : Z) :
  reduced x -> 1 <= M ->
  exists f, Fractions.limit_denominator x M = Ok f /\ reduced f /\
    1 <= Fractions.denominator f <= M /\
    forall (p' : Z) (q' : positive), Z.pos q' <= M ->
      (Qabs (Q_of_Fraction x - Q_of_Fraction f)
       <= Qabs (Q_of_Fraction x - (p' # q')))%Q /\
      ((Qabs (Q_of_Fraction x - Q_of_Fraction f)
        == Qabs (Q_of_Fraction x - (p' # q')))%Q ->
       Fractions.denominator f <= Z.pos q').
Proof.
  intros Hx HM.
  destruct (limit_denominator_closest x M Hx HM) as (f & Hf & Hred & _ & _).
  destruct (limit_denominator_closest_Q x M Hx HM) as (f' & Hf' & Hb & Hbest).
  assert (f' = f) by congruence. subst f'.
  exists f. auto.
Qed.

Lemma limit_denominator_returns_closest_fraction_witness :
  reduced (Fractions.mkFraction 3141592653589793 1000000000000000) /\
  1 <= 10 /\
  exists f,
    Fractions.limit_denominator
      (Fractions.mkFraction 3141592653589793 1000000000000000) 10 = Ok f /\
    reduced f /\ 1 <= Fractions.denominator f <= 10 /\
    forall (p' : Z) (q' : positive), Z.pos q' <= 10 ->
      (Qabs (Q_of_Fraction
               (Fractions.mkFraction 3141592653589793 1000000000000000)
             - Q_of_Fraction f)
       <= Qabs (Q_of_Fraction
                  (Fractions.mkFraction 3141592653589793 1000000000000000)
                - (p' # q')))%Q /\
      ((Qabs (Q_of_Fraction
                (Fractions.mkFraction 3141592653589793 1000000000000000)
              - Q_of_Fraction f)
        == Qabs (Q_of_Fraction
                   (Fractions.mkFraction 3141592653589793 1000000000000000)
                 - (p' # q')))%Q ->
       Fractions.denominator f <= Z.pos q').
Proof.
  assert (H1 : reduced (Fractions.mkFraction 3141592653589793 1000000000000000))
    by (split; vm_compute; reflexivity).
  assert (H2 : 1 <= 10) by lia.
  split; [exact H1|]. split; [exact H2|].
  exact (limit_denominator_returns_closest_fraction _ _ H1 H2).
Defined.

(** X12.  [limit_denominator] is idempotent: applied to its own result
    with the same bound it returns that result unchanged. *)
Theorem limit_denominator_idempotent (x : Fractions.Fraction) (M : Z) :
  reduced x -> 1 <= M ->
  exists f, Fractions.limit_denominator x M = Ok f /\
            Fractions.limit_denominator f M = Ok f.
Proof.
  intros Hx HM.
  destruct (limit_denominator_closest x M Hx HM) as (f & Hf & _ & HfM & _).
  exists f. split; [exact Hf|].
  unfold Fractions.limit_denominator.
  destruct (Z.ltb_spec M 1); [lia|].
  destruct (Z.leb_spec (Fractions.denominator f) M); [reflexivity | lia].
Qed.

Lemma limit_denominator_idempotent_witness :
  reduced (Fractions.mkFraction 85 256) /\ 1 <= 15 /\
  exists f, Fractions.limit_denominator (Fractions.mkFraction 85 256) 15 = Ok f /\
            Fractions.limit_denominator f 15 = Ok f.
Proof.
  assert (H1 : reduced (Fractions.mkFraction 85 256))
    by (split; vm_compute; reflexivity).
  assert (H2 : 1 <= 15) by lia.
  split; [exact H1|]. split; [exact H2|].
  exact (limit_denominator_idempotent _ _ H1 H2).
Defined.

(** The fractions [x] and [1 - x] get the same denominator. *)
Lemma limit_denominator_complement (n0 d0 M : Z) (f1 f2 : Fractions.Fraction) :
  reduced (Fractions.mkFraction n0 d0) -> 1 <= M ->
  Fractions.limit_denominator (Fractions.mkFraction n0 d0) M = Ok f1 ->
  Fractions.limit_denominator (Fractions.mkFraction (d0 - n0) d0) M = Ok f2 ->
  Fractions.denominator f1 = Fractions.denominator f2.
Proof.
  intros Hx HM H1 H2.
  assert (Hx' : reduced (Fractions.mkFraction (d0 - n0) d0)).
  { destruct Hx as [Hd Hg]. cbn [Fractions.numerator Fractions.denominator] in *.
    split; [exact Hd|]. cbn [Fractions.numerator Fractions.denominator].
    replace (d0 - n0) with (- (n0 - d0)) by ring.
    rewrite Z.gcd_comm, Z.gcd_opp_r, Z.gcd_sub_diag_r, Z.gcd_comm. exact Hg. }
  destruct (limit_denominator_closest _ M Hx HM)
    as (g1 & Hg1 & [Hq1 _] & Hq1M & Hbest1).
  destruct (limit_denominator_closest _ M Hx' HM)
    as (g2 & Hg2 & [Hq2 _] & Hq2M & Hbest2).
  assert (g1 = f1) by congruence. assert (g2 = f2) by congruence.
  subst g1 g2. clear Hg1 Hg2.
  set (p1 := Fractions.numerator f1) in *.
  set (q1 := Fractions.denominator f1) in *.
  set (p2 := Fractions.numerator f2) in *.
  set (q2 := Fractions.denominator f2) in *.
  specialize (Hbest1 (q2 - p2) q2 ltac:(lia)).
  specialize (Hbest2 (q1 - p1) q1 ltac:(lia)).
  unfold err in Hbest1, Hbest2.
  cbn [Fractions.numerator Fractions.denominator] in Hbest1, Hbest2.
  replace (n0 * q2 - (q2 - p2) * d0) with (- ((d0 - n0) * q2 - p2 * d0))
    in Hbest1 by ring.
  replace ((d0 - n0) * q1 - (q1 - p1) * d0) with (- (n0 * q1 - p1 * d0))
    in Hbest2 by ring.
  rewrite Z.abs_opp in Hbest1, Hbest2.
  destruct Hbest1 as [Hle1 Htie1]. destruct Hbest2 as [Hle2 Htie2].
  assert (q1 <= q2) by (apply Htie1; lia).
  assert (q2 <= q1) by (apply Htie2; lia).
  lia.
Qed.

(** A fraction [k/r] in lowest terms with [r <= M] that lies within
    [1/(2*M*r)] of [x] is the one [limit_denominator] settles on. *)
Lemma limit_denominator_nearby_fraction
  (x f : Fractions.Fraction) (M k r : Z) :
  reduced x -> 1 <= M ->
  Fractions.limit_denominator x M = Ok f ->
  1 <= r <= M -> Z.gcd k r = 1 ->
  2 * M * err x k r < Fractions.denominator x ->
  Fractions.denominator f = r.
Proof.
  intros Hx HM Hf Hr Hkr Hnear.
  destruct (limit_denominator_closest x M Hx HM)
    as (g & Hg & [Hq Hpq] & HqM & Hbest).
  assert (g = f) by congruence. subst g. clear Hg.
  destruct Hx as [Hd0 _].
  destruct (Hbest k r Hr) as [Hle _]. unfold err in *.
  set (n0 := Fractions.numerator x) in *.
  set (d0 := Fractions.denominator x) in *.
  set (p := Fractions.numerator f) in *.
  set (q := Fractions.denominator f) in *.
  set (Ef := Z.abs (n0 * q - p * d0)) in *.
  set (Ec := Z.abs (n0 * r - k * d0)) in *.
  assert (Hsame : p * r = k * q).
  { destruct (Z.eq_dec (p * r) (k * q)) as [|Hne]; [assumption|]. exfalso.
    assert (Hid : (p * r - k * q) * d0
                  = - r * (n0 * q - p * d0) + q * (n0 * r - k * d0)) by ring.
    assert (Habs : Z.abs (p * r - k * q) * d0 <= r * Ef + q * Ec).
    { rewrite <- (Z.abs_eq d0) at 1 by lia. rewrite <- Z.abs_mul, Hid.
      eapply Z.le_trans; [apply Z.abs_triangle|].
      rewrite !Z.abs_mul, Z.abs_opp, (Z.abs_eq r), (Z.abs_eq q) by lia.
      fold Ef Ec. lia. }
    assert (H1 : 1 <= Z.abs (p * r - k * q)) by lia.
    assert (HEc : 0 <= Ec) by apply Z.abs_nonneg.
    assert (HqEc : q * Ec <= M * Ec) by (apply Z.mul_le_mono_nonneg_r; lia).
    assert (Hd : d0 <= Z.abs (p * r - k * q) * d0) by nia.
    lia. }
  assert (Hqr : (q | r)).
  { apply Z.gauss with p; [exists k; lia|]. rewrite Z.gcd_comm. exact Hpq. }
  assert (Hrq : (r | q)).
  { apply Z.gauss with k; [exists p; lia|]. rewrite Z.gcd_comm. exact Hkr. }
  apply Z.divide_antisym_nonneg; [lia | lia | assumption | assumption].
Qed.

(** ** Samples with the same period guess *)

Lemma exact_phase_fraction (s : sample) (v : Z) :
  int2 s = Ok v -> (List.length s <= 53)%nat ->
  0 <= v < 2 ^ Z.of_nat (List.length s) /\
  period_guess s
  = (f <- Fractions.limit_denominator
            (Fractions.normalize v (2 ^ Z.of_nat (List.length s))) 15 ;;
     Ok (Fractions.denominator f)).
Proof.
  intros Hv Hlen.
  assert (Hs : s <> []) by (intros ->; discriminate).
  destruct (int2_value s Hs) as (v' & Hv' & Hb).
  assert (v' = v) by congruence. subst v'. split; [exact Hb|].
  destruct (truediv_pow2_bounds v _ Hb) as (_ & _ & Hexact).
  unfold period_guess, phase_final. rewrite Hv. cbn [bind].
  rewrite Hexact by lia. reflexivity.
Qed.

(** X13.  Two samples of the same length, at most 53 bits, whose values
    add up to [2^len] (the phases [x] and [1 - x]) give the same period
    guess. *)
Theorem complementary_samples_give_the_same_guess
  (s1 s2 : sample) (v1 v2 : Z) :
  List.length s1 = List.length s2 ->
  (List.length s1 <= 53)%nat ->
  int2 s1 = Ok v1 -> int2 s2 = Ok v2 ->
  v1 + v2 = 2 ^ Z.of_nat (List.length s1) ->
  period_guess s1 = period_guess s2.
Proof.
  intros Hlen H53 Hv1 Hv2 Hsum.
  destruct (exact_phase_fraction s1 v1 Hv1 H53) as [Hb1 ->].
  destruct (exact_phase_fraction s2 v2 Hv2 ltac:(lia)) as [Hb2 ->].
  rewrite <- Hlen in *. set (P := 2 ^ Z.of_nat (List.length s1)) in *.
  assert (HP : 0 < P) by (apply Z.pow_pos_nonneg; lia).
  destruct (normalize_factor v1 P HP) as (g & Hg & Hn & Hd).
  pose proof (normalize_reduced v1 P HP) as Hred.
  destruct (Fractions.normalize v1 P) as [n0 d0] eqn:Hx1.
  cbn [Fractions.numerator Fractions.denominator] in Hn, Hd.
  assert (Hx2 : Fractions.normalize v2 P = Fractions.mkFraction (d0 - n0) d0).
  { replace v2 with ((d0 - n0) * g) by lia. rewrite Hd at 1.
    replace (g * d0) with (d0 * g) by ring.
    destruct Hred as [Hd0 Hgcd].
    cbn [Fractions.numerator Fractions.denominator] in Hd0, Hgcd.
    apply normalize_scale; try assumption.
    replace (d0 - n0) with (- (n0 - d0)) by ring.
    rewrite Z.gcd_comm, Z.gcd_opp_r, Z.gcd_sub_diag_r, Z.gcd_comm.
    exact Hgcd. }
  rewrite Hx2.
  destruct (limit_denominator_closest _ 15 Hred ltac:(lia)) as (f1 & Hf1 & _).
  assert (Hred2 : reduced (Fractions.mkFraction (d0 - n0) d0))
    by (rewrite <- Hx2; apply normalize_reduced; exact HP).
  destruct (limit_denominator_closest _ 15 Hred2 ltac:(lia)) as (f2 & Hf2 & _).
  rewrite Hf1, Hf2. cbn [bind]. f_equal.
  exact (limit_denominator_complement n0 d0 15 f1 f2 Hred ltac:(lia) Hf1 Hf2).
Qed.

Lemma complementary_samples_give_the_same_guess_witness :
  List.length (bits "01010101") = List.length (bits "10101011") /\
  (List.length (bits "01010101") <= 53)%nat /\
  int2 (bits "01010101") = Ok 85 /\ int2 (bits "10101011") = Ok 171 /\
  85 + 171 = 2 ^ Z.of_nat (List.length (bits "01010101")) /\
  period_guess (bits "01010101") = period_guess (bits "10101011").
Proof.
  assert (H1 : List.length (bits "01010101") = List.length (bits "10101011"))
    by reflexivity.
  assert (H2 : (List.length (bits "01010101") <= 53)%nat) by (vm_compute; lia).
  assert (H3 : int2 (bits "01010101") = Ok 85) by (vm_compute; reflexivity).
  assert (H4 : int2 (bits "10101011") = Ok 171) by (vm_compute; reflexivity).
  assert (H5 : 85 + 171 = 2 ^ Z.of_nat (List.length (bits "01010101")))
    by (vm_compute; reflexivity).
  repeat (split; [assumption|]).
  exact (complementary_samples_give_the_same_guess _ _ _ _ H1 H2 H3 H4 H5).
Defined.

(** X14.  Step 3 recovers every denominator up to 15 from a sample of at
    least 9 bits: if [k/r] is in lowest terms with [r <= 15] and the
    sample is [floor(2^m * k / r)] on [m >= 9] bits, the period guess is
    [r].  (With 8 bits the sample of 3/11 is guessed as 15.) *)
Theorem denominator_is_recovered_from_9_bits
  (r k : Z) (init_phase : sample) :
  1 <= r <= 15 ->
  Z.gcd k r = 1 ->
  (9 <= List.length init_phase)%nat ->
  int2 init_phase = Ok (2 ^ Z.of_nat (List.length init_phase) * k / r) ->
  period_guess init_phase = Ok r.
Proof.
  intros Hr Hkr Hm Hv.
  assert (Hs : init_phase <> []) by (intros ->; discriminate).
  destruct (phase_final_ok init_phase Hs) as (v & Hv' & Hb & Hph).
  rewrite Hv in Hv'. injection Hv' as Hveq.
  set (m := Z.of_nat (List.length init_phase)) in *.
  set (P := 2 ^ m) in *.
  assert (HP : 512 <= P).
  { unfold P. change 512 with (2 ^ 9). apply Z.pow_le_mono_r; lia. }
  destruct (truediv_pow2_bounds v m Hb) as (_ & Herr & _). fold P in Herr.
  set (ph := truediv_pow2 v m) in *.
  assert (Hsc : scale ph = m) by apply truediv_pow2_scale.
  set (sig := significand ph) in *.
  (* the sample is within r - 1 of 2^m k / r *)
  assert (Hfloor : 0 <= P * k - v * r <= r - 1).
  { pose proof (Z.div_mod (P * k) r ltac:(lia)) as Hdm.
    pose proof (Z.mod_pos_bound (P * k) r ltac:(lia)) as Hmb.
    rewrite Hveq in Hdm. lia. }
  assert (Hclose : 30 * Z.abs (sig * r - k * P) < P).
  { assert (Htri : Z.abs (sig * r - k * P) <= 15 * Z.abs (sig - v) + 14).
    { replace (sig * r - k * P) with ((sig - v) * r + (v * r - P * k)) by ring.
      eapply Z.le_trans; [apply Z.abs_triangle|].
      rewrite Z.abs_mul, (Z.abs_eq r) by lia.
      assert (Z.abs (sig - v) * r <= Z.abs (sig - v) * 15)
        by (apply Z.mul_le_mono_nonneg_l; [apply Z.abs_nonneg | lia]).
      lia. }
    change (2 ^ 54) with 18014398509481984 in Herr. lia. }
  (* the fraction of the phase *)
  assert (Hpow : 0 < 2 ^ scale ph) by (rewrite Hsc; lia).
  pose proof (of_float_reduced ph ltac:(lia)) as Hred.
  destruct (normalize_factor sig (2 ^ scale ph) Hpow) as (g & Hg & Hn & Hd).
  set (n0 := Fractions.numerator (Fractions.of_float ph)).
  set (d0 := Fractions.denominator (Fractions.of_float ph)).
  assert (Hn' : sig = g * n0) by exact Hn.
  assert (Hd' : P = g * d0) by (unfold P; rewrite <- Hsc; exact Hd).
  destruct (limit_denominator_closest _ 15 Hred ltac:(lia)) as (f & Hf & _).
  unfold period_guess. rewrite Hph. cbn [bind]. fold ph. rewrite Hf.
  cbn [bind]. f_equal.
  apply (limit_denominator_nearby_fraction (Fractions.of_float ph) f 15 k r);
    try assumption; try lia.
  unfold err. fold n0 d0.
  assert (Hscale : g * Z.abs (n0 * r - k * d0) = Z.abs (sig * r - k * P)).
  { rewrite <- (Z.abs_eq g) at 1 by lia. rewrite <- Z.abs_mul.
    f_equal. rewrite Hn', Hd'. ring. }
  apply (mul_lt_cancel _ _ g); [exact Hg|].
  replace (2 * 15 * Z.abs (n0 * r - k * d0) * g)
    with (30 * (g * Z.abs (n0 * r - k * d0))) by ring.
  rewrite Hscale, Hd' in *. lia.
Qed.

Lemma denominator_is_recovered_from_9_bits_witness :
  1 <= 11 <= 15 /\ Z.gcd 3 11 = 1 /\
  (9 <= List.length (bits "010001011"))%nat /\
  int2 (bits "010001011")
  = Ok (2 ^ Z.of_nat (List.length (bits "010001011")) * 3 / 11) /\
  period_guess (bits "010001011") = Ok 11.
Proof.
  assert (H1 : 1 <= 11 <= 15) by lia.
  assert (H2 : Z.gcd 3 11 = 1) by reflexivity.
  assert (H3 : (9 <= List.length (bits "010001011"))%nat) by (vm_compute; lia).
  assert (H4 : int2 (bits "010001011")
               = Ok (2 ^ Z.of_nat (List.length (bits "010001011")) * 3 / 11))
    by (vm_compute; reflexivity).
  repeat (split; [assumption|]).
  exact (denominator_is_recovered_from_9_bits 11 3 _ H1 H2 H3 H4).
Defined.

(** With the 8 bits of the circuit of [shor_qpe] the guess can miss. *)
Example eight_bits_miss_3_over_11 :
  int2 (bits "01000101") = Ok (2 ^ 8 * 3 / 11) /\
  period_guess (bits "01000101") = Ok 15.
Proof. split; vm_compute; reflexivity. Qed.

(** ** The round trip from the order to the sample and back *)

Lemma is_orderb_sound (N a r : Z) : is_orderb N a r = true -> is_order N a r.
Proof.
  unfold is_orderb, is_order. intros H.
  apply andb_prop in H as [H Hmin]. apply andb_prop in H as [Hpos Hone].
  split; [lia|]. split; [lia|]. intros r' Hr'.
  pose proof (forallb_range _ 1 r Hmin r' ltac:(lia)) as Hne.
  cbv beta in Hne. apply negb_true_iff in Hne. lia.
Qed.

(** The sample [floor(P * k / r)] read as a float with significand [sig]
    lies close enough to [k / r] once [P > 30 * (r - 1)]. *)
Lemma floor_sample_is_close (P k r v sig : Z) :
  1 <= r <= 15 -> 30 * (r - 1) < P ->
  v = P * k / r ->
  Z.abs (sig - v) * 2 ^ 54 <= P ->
  30 * Z.abs (sig * r - k * P) < P.
Proof.
  intros Hr HP Hv Herr.
  assert (Hfloor : 0 <= P * k - v * r <= r - 1).
  { pose proof (Z.div_mod (P * k) r ltac:(lia)) as Hdm.
    pose proof (Z.mod_pos_bound (P * k) r ltac:(lia)) as Hmb.
    rewrite <- Hv in Hdm. lia. }
  pose proof (Z.abs_nonneg (sig - v)) as HE.
  assert (Hmul : Z.abs (sig - v) * r <= Z.abs (sig - v) * 15)
    by (apply Z.mul_le_mono_nonneg_l; lia).
  assert (Htri : Z.abs (sig * r - k * P) <= Z.abs (sig - v) * r + (r - 1)).
  { replace (sig * r - k * P) with ((sig - v) * r + (v * r - P * k)) by ring.
    eapply Z.le_trans; [apply Z.abs_triangle|].
    rewrite Z.abs_mul, (Z.abs_eq r) by lia. lia. }
  change (2 ^ 54) with 18014398509481984 in Herr. lia.
Qed.

(** C7, counterexample.  3 has order 16 modulo 17 and 1 is coprime to 16,
    but no sample gives the denominator 16: step 3 asks for a denominator
    up to 15.  The sample of 1/16 on 8 bits gives 15. *)
Lemma order_16_is_never_recovered :
  is_order 17 3 16 /\ Z.gcd 1 16 = 1 /\
  int2 (bits "00010000") = Ok (2 ^ 8 * 1 / 16) /\
  period_guess (bits "00010000") = Ok 15 /\
  forall init_phase : sample, period_guess init_phase <> Ok 16.
Proof.
  split; [apply is_orderb_sound; vm_compute; reflexivity|].
  repeat (split; [vm_compute; reflexivity|]).
  intros init_phase H. apply period_guess_range in H. lia.
Qed.

(** C7, amended.  Round trip within the bound of step 3: if [r] is the
    order of [base] modulo [N'] and [r <= 15], [k] is coprime to [r] and
    the sample is [floor(2^m * k / r)] on [m] bits with
    [2^m > 30 * (r - 1)], the period guess is [r].  Nine bits are enough
    for every such [r]; the 8 bits of [shor_qpe] are enough up to
    [r = 9]. *)
Theorem order_is_recovered_within_bound
  (N' base r k : Z) (init_phase : sample) :
  is_order N' base r ->
  r <= 15 ->
  Z.gcd k r = 1 ->
  30 * (r - 1) < 2 ^ Z.of_nat (List.length init_phase) ->
  int2 init_phase = Ok (2 ^ Z.of_nat (List.length init_phase) * k / r) ->
  period_guess init_phase = Ok r.
Proof.
  intros [Hr0 _] Hr15 Hkr Hm Hv.
  assert (Hs : init_phase <> []) by (intros ->; discriminate).
  destruct (period_guess_ok init_phase Hs) as (ph & f & Hph & Hsc & Hf & Hg & _).
  destruct (phase_final_ok init_phase Hs) as (v & Hv' & Hb & Hph').
  rewrite Hv in Hv'. injection Hv' as Hveq.
  rewrite Hph in Hph'. injection Hph' as Hpheq.
  set (P := 2 ^ Z.of_nat (List.length init_phase)) in *.
  destruct (truediv_pow2_bounds v _ Hb) as (_ & Herr & _).
  fold P in Herr. rewrite <- Hpheq in Herr.
  pose proof (floor_sample_is_close P k r v (significand ph)
                ltac:(lia) Hm (eq_sym Hveq) Herr) as Hclose.
  assert (Hpow : 0 < 2 ^ scale ph) by (rewrite Hsc; fold P; lia).
  destruct (normalize_factor (significand ph) (2 ^ scale ph) Hpow)
    as (g & Hg0 & Hn & Hd).
  set (n0 := Fractions.numerator (Fractions.of_float ph)).
  set (d0 := Fractions.denominator (Fractions.of_float ph)).
  assert (Hn' : significand ph = g * n0) by exact Hn.
  assert (Hd' : P = g * d0) by (unfold P; rewrite <- Hsc; exact Hd).
  rewrite Hg. f_equal.
  apply (limit_denominator_nearby_fraction (Fractions.of_float ph) f 15 k r);
    [apply of_float_reduced; lia | lia | exact Hf | lia | exact Hkr |].
  unfold err. fold n0 d0.
  assert (Hscale : Z.abs (significand ph * r - k * P)
                   = g * Z.abs (n0 * r - k * d0)).
  { rewrite <- (Z.abs_eq g) at 1 by lia. rewrite <- Z.abs_mul.
    f_equal. rewrite Hn', Hd'. ring. }
  apply (mul_lt_cancel _ _ g); [exact Hg0|].
  rewrite Hscale, Hd' in Hclose. lia.
Qed.

Lemma order_is_recovered_within_bound_witness :
  is_order 7 2 3 /\ 3 <= 15 /\ Z.gcd 1 3 = 1 /\
  30 * (3 - 1) < 2 ^ Z.of_nat (List.length (bits "01010101")) /\
  int2 (bits "01010101")
  = Ok (2 ^ Z.of_nat (List.length (bits "01010101")) * 1 / 3) /\
  period_guess (bits "01010101") = Ok 3.
Proof.
  assert (H1 : is_order 7 2 3) by (apply is_orderb_sound; reflexivity).
  assert (H2 : 3 <= 15) by lia.
  assert (H3 : Z.gcd 1 3 = 1) by reflexivity.
  assert (H4 : 30 * (3 - 1) < 2 ^ Z.of_nat (List.length (bits "01010101")))
    by (vm_compute; reflexivity).
  assert (H5 : int2 (bits "01010101")
               = Ok (2 ^ Z.of_nat (List.length (bits "01010101")) * 1 / 3))
    by (vm_compute; reflexivity).
  repeat (split; [assumption|]).
  exact (order_is_recovered_within_bound 7 2 3 1 _ H1 H2 H3 H4 H5).
Defined.

(** ** Padding a sample with zeros *)

Lemma int2_app_false (s : sample) (v : Z) :
  int2 s = Ok v -> int2 (s ++ [false]) = Ok (2 * v).
Proof.
  destruct s as [|b s]; [discriminate|]. intros Hv.
  assert (Hv' : fold_left (fun acc (b : bool) => 2 * acc + Z.b2z b) (b :: s) 0
                = v) by (unfold int2 in Hv; congruence).
  change (int2 ((b :: s) ++ [false]))
    with (Ok (fold_left (fun acc (b : bool) => 2 * acc + Z.b2z b)
                ((b :: s) ++ [false]) 0)).
  rewrite fold_left_app, Hv'. cbn [fold_left Z.b2z]. f_equal. lia.
Qed.

Lemma round_half_even_double (v shift : Z) :
  0 <= v -> 1 <= shift ->
  round_half_even (2 * v) (shift + 1) = round_half_even v shift.
Proof.
  intros Hv Hs. unfold round_half_even.
  assert (Hp : 0 < 2 ^ shift) by (apply Z.pow_pos_nonneg; lia).
  assert (Hp1 : 2 ^ (shift + 1) = 2 * 2 ^ shift)
    by (rewrite Z.pow_add_r by lia; ring).
  assert (Hh : 2 ^ shift = 2 * 2 ^ (shift - 1)).
  { replace shift with (1 + (shift - 1)) at 1 by lia.
    rewrite Z.pow_add_r by lia. reflexivity. }
  rewrite !Z.shiftr_div_pow2, !Z.shiftl_mul_pow2, !Z.mul_1_l by lia.
  replace (shift + 1 - 1) with shift by ring.
  rewrite Hp1, Z.div_mul_cancel_l by lia.
  set (q := v / 2 ^ shift).
  replace (2 * v - q * (2 * 2 ^ shift)) with (2 * (v - q * 2 ^ shift)) by ring.
  set (rem := v - q * 2 ^ shift).
  rewrite Hh. set (half := 2 ^ (shift - 1)).
  destruct (Z.ltb_spec (2 * rem) (2 * half)), (Z.ltb_spec rem half); try lia;
    try reflexivity.
  destruct (Z.ltb_spec (2 * half) (2 * rem)), (Z.ltb_spec half rem); try lia;
    reflexivity.
Qed.

Lemma bit_length_double (v : Z) :
  0 < v -> bit_length (2 * v) = bit_length v + 1.
Proof.
  intros Hv. unfold bit_length.
  destruct (Z.eqb_spec (2 * v) 0); [lia|]. destruct (Z.eqb_spec v 0); [lia|].
  rewrite !Z.abs_eq by lia. rewrite Z.log2_double by lia. lia.
Qed.

Lemma round_half_even_zero (shift : Z) :
  0 < shift -> round_half_even 0 shift = 0.
Proof.
  intros Hs. unfold round_half_even.
  rewrite Z.shiftr_0_l, Z.shiftl_0_l, Z.shiftl_mul_pow2 by lia.
  assert (0 < 2 ^ (shift - 1)) by (apply Z.pow_pos_nonneg; lia).
  destruct (Z.ltb_spec (0 - 0) (1 * 2 ^ (shift - 1))); [reflexivity | lia].
Qed.

Lemma significand_zero (len : Z) : significand (truediv_pow2 0 len) = 0.
Proof.
  unfold truediv_pow2.
  set (shift := Z.max (Z.max (bit_length 0 - 53) (len - 1074)) 0).
  destruct (Z.eqb_spec shift 0); cbn [significand]; [reflexivity|].
  rewrite round_half_even_zero by (unfold shift in *; lia).
  apply Z.shiftl_0_l.
Qed.

(** Doubling the value and adding a bit doubles the significand: the
    float is the same. *)
Lemma truediv_pow2_double (v len : Z) :
  0 <= v -> 0 <= len ->
  significand (truediv_pow2 (2 * v) (len + 1))
  = 2 * significand (truediv_pow2 v len).
Proof.
  intros Hv Hlen. destruct (Z.eq_dec v 0) as [->|Hnz].
  { change (2 * 0) with 0. rewrite !significand_zero. reflexivity. }
  unfold truediv_pow2. rewrite bit_length_double by lia.
  set (A := Z.max (bit_length v - 53) (len - 1074)).
  replace (Z.max (bit_length v + 1 - 53) (len + 1 - 1074)) with (A + 1)
    by (unfold A; lia).
  destruct (Z.eqb_spec (Z.max A 0) 0) as [H0|H0],
           (Z.eqb_spec (Z.max (A + 1) 0) 0) as [H1|H1];
    cbn [significand]; try lia.
  - (* shift 0, then 1 *)
    replace (Z.max (A + 1) 0) with 1 by lia.
    unfold round_half_even.
    rewrite Z.shiftr_div_pow2, !Z.shiftl_mul_pow2 by lia.
    change (2 ^ 1) with 2. change (1 * 2 ^ (1 - 1)) with 1.
    replace (2 * v / 2) with v by (rewrite Z.mul_comm, Z.div_mul; lia).
    replace (2 * v - v * 2) with 0 by ring. cbn [Z.ltb Z.compare]. lia.
  - replace (Z.max (A + 1) 0) with (Z.max A 0 + 1) by lia.
    rewrite round_half_even_double by lia.
    rewrite !Z.shiftl_mul_pow2, Z.pow_add_r by lia. ring.
Qed.

Lemma normalize_mul (n d g : Z) :
  0 < g -> 0 < d ->
  Fractions.normalize (n * g) (d * g) = Fractions.normalize n d.
Proof.
  intros Hg Hd. unfold Fractions.normalize.
  rewrite Z.gcd_mul_mono_r_nonneg by lia.
  destruct (Z.ltb_spec (d * g) 0) as [Hneg|_]; [nia|].
  destruct (Z.ltb_spec d 0) as [Hneg|_]; [lia|].
  assert (HG : Z.gcd n d <> 0).
  { intro H0. apply Z.gcd_eq_0_r in H0. lia. }
  rewrite !Z.div_mul_cancel_r by lia. reflexivity.
Qed.

Lemma period_guess_app_false (s : sample) :
  s <> [] -> period_guess (s ++ [false]) = period_guess s.
Proof.
  intros Hs. destruct (int2_value s Hs) as (v & Hv & Hb).
  pose proof (int2_app_false s v Hv) as Hv2.
  unfold period_guess, phase_final. rewrite Hv, Hv2. cbn [bind].
  rewrite length_app. cbn [List.length].
  replace (Z.of_nat (List.length s + 1)) with (Z.of_nat (List.length s) + 1)
    by lia.
  set (len := Z.of_nat (List.length s)) in *.
  assert (Hsame : Fractions.of_float (truediv_pow2 (2 * v) (len + 1))
                  = Fractions.of_float (truediv_pow2 v len)).
  { unfold Fractions.of_float.
    rewrite !truediv_pow2_scale, truediv_pow2_double by lia.
    rewrite Z.pow_add_r by lia. change (2 ^ 1) with 2.
    rewrite (Z.mul_comm 2 (significand _)).
    apply normalize_mul; [lia|]. apply Z.pow_pos_nonneg; lia. }
  rewrite Hsame. reflexivity.
Qed.

(** X15.  Padding a sample with zero bits on the right (the same phase
    read on a longer counting register) does not change the period guess,
    whatever the lengths. *)
Theorem trailing_zeros_keep_the_guess (init_phase : sample) (zeros : nat) :
  init_phase <> [] ->
  period_guess (init_phase ++ repeat false zeros) = period_guess init_phase.
Proof.
  intros Hs. induction zeros as [|n IH].
  - cbn [repeat]. rewrite app_nil_r. reflexivity.
  - replace (repeat false (S n)) with (repeat false n ++ [false])
      by (symmetry; apply repeat_cons).
    rewrite app_assoc, period_guess_app_false; [exact IH|].
    destruct init_phase; [congruence | discriminate].
Qed.

Lemma trailing_zeros_keep_the_guess_witness :
  bits "0101" <> [] /\
  period_guess (bits "0101" ++ repeat false 60) = period_guess (bits "0101").
Proof.
  assert (H : bits "0101" <> []) by (vm_compute; discriminate).
  split; [exact H | exact (trailing_zeros_keep_the_guess _ 60 H)].
Defined.

(** ** Exceptions and the all-zero outcome in the loop *)

Lemma while_gcheck_first_raise (N' a' k m : Z) (sim : oracle) (n : nat) :
  forall calls fuel e,
    (forall i, (i < n)%nat ->
       rejects N' a' (sim (qpe_circuit k m) (calls + i)%nat) = true) ->
    attempt N' a' (sim (qpe_circuit k m) (calls + n)%nat) true = Raise e ->
    (n < fuel)%nat ->
    while_gcheck fuel N' a' k m sim calls = (Raise e, S (calls + n)%nat).
Proof.
  induction n as [|n IH]; intros calls fuel e Hrej Hraise Hfuel;
    (destruct fuel as [|fuel]; [lia|]); rewrite while_gcheck_S.
  - rewrite Nat.add_0_r in Hraise. rewrite Hraise. f_equal. f_equal. lia.
  - pose proof (Hrej 0%nat ltac:(lia)) as H0. rewrite Nat.add_0_r in H0.
    apply rejects_spec in H0 as [gs0 H0]. rewrite H0.
    rewrite (IH (S calls) fuel e).
    + f_equal. f_equal. lia.
    + intros i Hi. replace (S calls + i)%nat with (calls + S i)%nat by lia.
      apply Hrej. lia.
    + replace (S calls + n)%nat with (calls + S n)%nat by lia. exact Hraise.
    + lia.
Qed.

(** X17.  An exception in an attempt is not retried: when the simulator
    hands back an empty key after [n] rejected samples, [shor_qpe] ends
    with the [ValueError] of [int('', 2)] on attempt [n + 1]. *)
Theorem empty_sample_ends_the_loop (k : Z) (sim : oracle) (n fuel : nat) :
  (forall i, (i < n)%nat -> rejects N a (sim (qpe_circuit 12 8) i) = true) ->
  sim (qpe_circuit 12 8) n = [] ->
  (n < fuel)%nat ->
  shor_qpe k sim fuel = (Raise ValueError, S n).
Proof.
  intros Hrej Hempty Hfuel. unfold shor_qpe.
  apply (while_gcheck_first_raise 15 7 12 (12 - 4) sim n 0%nat fuel ValueError).
  - exact Hrej.
  - cbn [Nat.add]. change (12 - 4) with 8. rewrite Hempty. reflexivity.
  - exact Hfuel.
Qed.

Lemma empty_sample_ends_the_loop_witness :
  (forall i, (i < 1)%nat ->
     rejects N a (oracle_cons (bits "00000000") (constant_oracle [])
                    (qpe_circuit 12 8) i) = true) /\
  oracle_cons (bits "00000000") (constant_oracle []) (qpe_circuit 12 8) 1%nat
  = [] /\
  (1 < 3)%nat /\
  shor_qpe 12 (oracle_cons (bits "00000000") (constant_oracle [])) 3
  = (Raise ValueError, 2%nat).
Proof.
  assert (H1 : forall i, (i < 1)%nat ->
             rejects N a (oracle_cons (bits "00000000") (constant_oracle [])
                            (qpe_circuit 12 8) i) = true).
  { intros i Hi. replace i with 0%nat by lia. vm_compute. reflexivity. }
  assert (H2 : oracle_cons (bits "00000000") (constant_oracle [])
                 (qpe_circuit 12 8) 1%nat = []) by reflexivity.
  assert (H3 : (1 < 3)%nat) by lia.
  repeat (split; [assumption|]).
  exact (empty_sample_ends_the_loop 12 _ 1 3 H1 H2 H3).
Defined.

Lemma period_guess_zeros (n : nat) : period_guess (repeat false (S n)) = Ok 1.
Proof.
  induction n as [|n IH]; [vm_compute; reflexivity|].
  replace (repeat false (S (S n))) with (repeat false (S n) ++ [false])
    by (symmetry; apply (repeat_cons (S n) false)).
  rewrite period_guess_app_false; [exact IH | discriminate].
Qed.

(** X18.  The all-zero outcome is rejected on a register of any size: a
    simulator that always measures zeros, however many, keeps [shor_qpe]
    in its loop for ever. *)
Theorem zero_outcome_never_returns (k : Z) (zeros fuel : nat) :
  shor_qpe k (constant_oracle (repeat false (S zeros))) fuel
  = (Unfinished, fuel).
Proof.
  unfold shor_qpe. rewrite while_gcheck_rejecting; [reflexivity|].
  intros i _. unfold constant_oracle.
  destruct (attempt_of_guess _ _ (period_guess_zeros zeros)) as [_ Hatt].
  unfold rejects. change 15 with N. change 7 with a. rewrite Hatt.
  reflexivity.
Qed.
